(** * Freediving buoyancy model and lead-ballast optimiser

    Shallow embedding of [freediving.py] and [diving_lead_optimizer.py].

    Numbers.  The Python code computes with binary floating point; here every
    number is an exact rational ([Q]), compared with [==].  Rounding is
    therefore outside this embedding: a statement over [Q] is a statement
    about the arithmetic the code writes down, evaluated exactly.

    Rounding.  Where a statement does not survive rounding, the force model
    is transcribed a second time over binary64 ([Binary64]), operation by
    operation, and evaluated there.

    Failure.  A Python exception is a [Raise].  A value numpy reports as
    [inf] or [nan] is no exception and no rational: it is [NonFinite].

    Library code.  [np.polyfit] is numpy's, not this repository's: the
    optimizer takes the fit as a parameter. *)

From Stdlib Require Import String QArith Qabs Qround ZArith List Bool Lia Lqa Floats.
Import ListNotations.

Open Scope Q_scope.

Set Warnings "-inexact-float".

(** ** Outcomes of fallible code *)

Inductive exn : Type :=
| IndexError          (* indexing past the end of a sequence *)
| KeyError            (* missing dictionary key *)
| ZeroDivisionError   (* Python float division by zero *)
| ValueError.         (* argmin of an empty array, failed unpacking *)

Inductive result (A : Type) : Type :=
| Value (a : A)
| Raise (e : exn).

Arguments Value {A} a.
Arguments Raise {A} e.

Definition bind {A B : Type} (m : result A) (k : A -> result B) : result B :=
  match m with
  | Value a => k a
  | Raise e => Raise e
  end.

Notation "x <- m ;; k" := (bind m (fun x => k))
  (at level 61, m at next level, right associativity).

Fixpoint mapM {A B : Type} (f : A -> result B) (l : list A) : result (list B) :=
  match l with
  | [] => Value []
  | a :: l' => b <- f a ;; bs <- mapM f l' ;; Value (b :: bs)
  end.

(** Python [xs[i]] for [0 <= i]. *)
Definition index {A : Type} (xs : list A) (i : nat) : result A :=
  match nth_error xs i with
  | Some a => Value a
  | None => Raise IndexError
  end.

(** Python [d[k]] on a dictionary kept in insertion order. *)
Fixpoint getitem {A : Type} (d : list (string * A)) (k : string) : result A :=
  match d with
  | [] => Raise KeyError
  | (k', v) :: d' => if String.eqb k' k then Value v else getitem d' k
  end.

(** Python float division [x / y]. *)
Definition pydiv (x y : Q) : result Q :=
  if Qeq_bool y 0 then Raise ZeroDivisionError else Value (x / y).

(** A float64 the code reports: a rational, or one of numpy's [inf] and
    [nan]. *)
Inductive number : Type :=
| Finite (q : Q)
| NonFinite.

(** numpy float64 division [x / y]: no exception, [inf] or [nan] when [y]
    is zero. *)
Definition npdiv (x y : Q) : number :=
  if Qeq_bool y 0 then NonFinite else Finite (x / y).

Definition Qlt_bool (x y : Q) : bool := negb (Qle_bool y x).

(** ** numpy grids *)

(** [np.linspace(start, stop, num)] for [num >= 2]:
    [start + i * (stop - start) / (num - 1)], [i = 0 .. num - 1]. *)
Definition linspace (start stop : Q) (num : nat) : list Q :=
  let step := (stop - start) / inject_Z (Z.of_nat (num - 1)) in
  map (fun i => start + inject_Z (Z.of_nat i) * step) (seq 0 num).

(** [np.arange(start, stop, step)]: [ceil((stop - start) / step)] values
    [start + i * step]. *)
Definition arange (start stop step : Q) : list Q :=
  let n := Z.to_nat (Qceiling ((stop - start) / step)) in
  map (fun i => start + inject_Z (Z.of_nat i) * step) (seq 0 n).

(** ** freediving.py *)

Module Freediving.

(** The [params] dictionary.  Every key of the example record is a field;
    ["seawater_density"] is absent from the record the caller builds and is
    written by [plot_net_force_kgf], hence the [option]. *)
Record params : Type := mkParams {
  mass : Q;
  height : Q;
  body_fat_percentage : Q;
  lung_volumes : list (string * Q);
  residual_volume : Q;
  wetsuit_mass : Q;
  wetsuit_density : Q;
  snorkel_mask_volume : Q;
  lead_weight : Q;
  water_type : string;
  temperature : Q;
  wetsuit_compressibility_factor : Q;
  x_limits : list Q;
  y_limits : list Q;
  seawater_density : option Q
}.

(** [params["seawater_density"] = v] *)
Definition set_seawater_density (p : params) (v : Q) : params :=
  mkParams (mass p) (height p) (body_fat_percentage p) (lung_volumes p)
    (residual_volume p) (wetsuit_mass p) (wetsuit_density p)
    (snorkel_mask_volume p) (lead_weight p) (water_type p) (temperature p)
    (wetsuit_compressibility_factor p) (x_limits p) (y_limits p) (Some v).

(** [params["lead_weight"] = w] *)
Definition set_lead_weight (p : params) (w : Q) : params :=
  mkParams (mass p) (height p) (body_fat_percentage p) (lung_volumes p)
    (residual_volume p) (wetsuit_mass p) (wetsuit_density p)
    (snorkel_mask_volume p) w (water_type p) (temperature p)
    (wetsuit_compressibility_factor p) (x_limits p) (y_limits p)
    (seawater_density p).

(** [params["seawater_density"]] *)
Definition get_seawater_density (p : params) : result Q :=
  match seawater_density p with
  | Some v => Value v
  | None => Raise KeyError
  end.

Definition calculate_seawater_density (salinity temperature : Q) : Q :=
  1.000 + 0.0008 * salinity - 0.0003 * temperature.

Definition get_salinity_and_density (water_type : string) (temperature : Q) : Q :=
  let salinity := if String.eqb water_type "sea" then 35 else 0 in
  calculate_seawater_density salinity temperature * 1000.

(** Body of the loop over [depths] in [plot_net_force_kgf] (lines 42-73):
    the net force in kgf at depth [d] for a lung volume in litres. *)
Definition net_force_kgf (p : params) (lung_volume d : Q) : result Q :=
  if Qlt_bool d 0 then
    Value (- mass p - wetsuit_mass p)
  else
    let lung_volume_cm3 := lung_volume * 1000 in
    let rv := residual_volume p in
    let lung_volume_at_depth := rv + (lung_volume_cm3 - rv) / (1 + d / 10) in
    let volume_fat := mass p * body_fat_percentage p * 1000 / 0.9 in
    let volume_lean := (mass p * (1 - body_fat_percentage p)) * 1000 / 1.1 in
    let wetsuit_compressibility_factor := wetsuit_compressibility_factor p / 100 in
    wetsuit_volume_surface <- pydiv (wetsuit_mass p * 1000) (wetsuit_density p) ;;
    let wetsuit_volume_at_depth :=
      wetsuit_volume_surface * (1 - wetsuit_compressibility_factor * d) in
    let snorkel_volume := snorkel_mask_volume p in
    let weight_volume := lead_weight p / 11340 in
    let total_displacement_volume :=
      (volume_fat / (1 + d * 0.1 / 100)
       + volume_lean / (1 + d * 0.05 / 100)
       + lung_volume_at_depth
       + wetsuit_volume_at_depth
       + snorkel_volume
       + weight_volume * 1000000) * (1 # 1000000) in
    rho <- get_seawater_density p ;;
    let F_buoyancy := total_displacement_volume * rho * 9.81 in
    let F_weight := (mass p + wetsuit_mass p + lead_weight p) * 9.81 in
    Value ((F_buoyancy - F_weight) / 9.81).

(** The three keys the [styles] dictionary reads eagerly (lines 28-32). *)
Definition lung_conditions : list string :=
  ["full_lung"; "medium_lung"; "empty_lung"]%string.

(** [plot_net_force_kgf(params, plot=False)].  The caller's dictionary is
    mutated in place at line 21, before anything can fail, so the record
    after the call is returned beside the outcome. *)
Definition plot_net_force_kgf (p : params)
  : params * result (list Q * list (string * list Q)) :=
  let p1 := set_seawater_density p
              (get_salinity_and_density (water_type p) (temperature p)) in
  (p1,
   y0 <- index (y_limits p1) 0 ;;
   let depths := linspace 0 y0 500 in
   _ <- mapM (getitem (lung_volumes p1)) lung_conditions ;;
   net_force_curves <-
     mapM (fun cl : string * Q =>
             let (condition, lung_volume) := cl in
             net_forces_kgf <- mapM (net_force_kgf p1 lung_volume) depths ;;
             Value (condition, net_forces_kgf))
          (lung_volumes p1) ;;
   Value (depths, net_force_curves)).

(** The example record at the end of the file. *)
Definition example_params : params :=
  mkParams 70 1.84 0.20
    [("full_lung", 6.5); ("medium_lung", 4.0); ("empty_lung", 1.5)]%string
    (1.5 * 1000) 1.24 0.24 150 0.0 "sea" 22 1.6 [-4; 8] [50; -10] None.

End Freediving.

(** ** freediving.py over binary64

    The density model and the body of the depth loop a second time, every
    operation the IEEE binary64 one, in the order Python evaluates the
    source's expressions.  Integers of the record (70, 150, 22, 35) are
    their exact binary64 values. *)

Module Binary64.

Local Open Scope float_scope.

(** The entries of [params] the depth loop reads. *)
Record params : Type := mkParams {
  mass : float;
  body_fat_percentage : float;
  residual_volume : float;
  wetsuit_mass : float;
  wetsuit_density : float;
  snorkel_mask_volume : float;
  lead_weight : float;
  water_type : string;
  temperature : float;
  wetsuit_compressibility_factor : float
}.

(** [params["lead_weight"] = w] *)
Definition set_lead_weight (p : params) (w : float) : params :=
  mkParams (mass p) (body_fat_percentage p) (residual_volume p)
    (wetsuit_mass p) (wetsuit_density p) (snorkel_mask_volume p) w
    (water_type p) (temperature p) (wetsuit_compressibility_factor p).

Definition calculate_seawater_density (salinity temperature : float) : float :=
  1.000 + 0.0008 * salinity - 0.0003 * temperature.

Definition get_salinity_and_density (water_type : string) (temperature : float)
  : float :=
  let salinity := if String.eqb water_type "sea" then 35 else 0 in
  calculate_seawater_density salinity temperature * 1000.

(** Lines 21-23, 26 and 42-73: the net force in kgf at depth [d] for a lung
    volume in litres, at the density the call resolves. *)
Definition net_force_kgf (p : params) (lung_volume d : float) : result float :=
  let seawater_density :=
    get_salinity_and_density (water_type p) (temperature p) in
  let wetsuit_compressibility_factor := wetsuit_compressibility_factor p / 100 in
  if PrimFloat.ltb d 0 then
    Value (- mass p - wetsuit_mass p)
  else
    let lung_volume_cm3 := lung_volume * 1000 in
    let rv := residual_volume p in
    let lung_volume_at_depth := rv + (lung_volume_cm3 - rv) / (1 + d / 10) in
    let volume_fat := mass p * body_fat_percentage p * 1000 / 0.9 in
    let volume_lean := (mass p * (1 - body_fat_percentage p)) * 1000 / 1.1 in
    if PrimFloat.eqb (wetsuit_density p) 0 then Raise ZeroDivisionError
    else
      let wetsuit_volume_surface := (wetsuit_mass p * 1000) / wetsuit_density p in
      let wetsuit_volume_at_depth :=
        wetsuit_volume_surface * (1 - wetsuit_compressibility_factor * d) in
      let snorkel_volume := snorkel_mask_volume p in
      let weight_volume := lead_weight p / 11340 in
      let total_displacement_volume :=
        (volume_fat / (1 + d * 0.1 / 100)
         + volume_lean / (1 + d * 0.05 / 100)
         + lung_volume_at_depth
         + wetsuit_volume_at_depth
         + snorkel_volume
         + weight_volume * 1e6) * 1e-6 in
      let F_buoyancy := total_displacement_volume * seawater_density * 9.81 in
      let F_weight := (mass p + wetsuit_mass p + lead_weight p) * 9.81 in
      Value ((F_buoyancy - F_weight) / 9.81).

(** The example record at the end of the file. *)
Definition example_params : params :=
  mkParams 70 0.20 (1.5 * 1000) 1.24 0.24 150 0.0 "sea" 22 1.6.

End Binary64.

(** ** diving_lead_optimizer.py *)

Module LeadOptimizer.

Import Freediving.

(** numpy boolean-mask indexing [xs[mask]]. *)
Fixpoint mask_select {A : Type} (mask : list bool) (xs : list A) : result (list A) :=
  match mask, xs with
  | [], [] => Value []
  | m :: mask', x :: xs' =>
      r <- mask_select mask' xs' ;; Value (if m then x :: r else r)
  | _, _ => Raise IndexError
  end.

(** [np.cumsum] *)
Fixpoint cumsum_from (acc : Q) (l : list Q) : list Q :=
  match l with
  | [] => []
  | x :: l' => (acc + x) :: cumsum_from (acc + x) l'
  end.

Definition cumsum (l : list Q) : list Q :=
  match l with
  | [] => []
  | x :: l' => x :: cumsum_from x l'
  end.

(** Python [xs[-1]] *)
Definition index_last {A : Type} (xs : list A) : result A :=
  match rev xs with
  | a :: _ => Value a
  | [] => Raise IndexError
  end.

(** Body of the downward loop (lines 23-31), at index [i]. *)
Definition descent_work (relevant_depths relevant_forces : list Q) (i : nat)
  : result Q :=
  f <- index relevant_forces i ;;
  let force := f * 9.81 in
  d1 <- index relevant_depths (i + 1) ;;
  d0 <- index relevant_depths i ;;
  let distance := d1 - d0 in
  Value (if Qlt_bool 0 force then force * Qabs distance else 0).

(** Body of the upward loop (lines 37-45), at index [i]. *)
Definition ascent_work (relevant_depths relevant_forces : list Q) (i : nat)
  : result Q :=
  f <- index relevant_forces i ;;
  let force := f * 9.81 in
  di <- index relevant_depths i ;;
  dp <- index relevant_depths (i - 1) ;;
  let distance := di - dp in
  Value (if Qlt_bool force 0 then Qabs (force * distance) else 0).

(** Lines 12-51 of [energy_use]: the cumulative energy sequence in Wh for a
    depth grid, the forces sampled on it and a target depth. *)
Definition cumulative_energy_wh (depths net_forces : list Q) (depth : Q)
  : result (list Q) :=
  let depth_indices := map (fun d => Qle_bool d depth) depths in
  relevant_depths <- mask_select depth_indices depths ;;
  relevant_forces <- mask_select depth_indices net_forces ;;
  _ <- index relevant_depths 0 ;;
  let n := length relevant_depths in
  down <- mapM (descent_work relevant_depths relevant_forces) (seq 0 (n - 1)) ;;
  up <- mapM (ascent_work relevant_depths relevant_forces) (rev (seq 1 (n - 1))) ;;
  let energy_deltas := down ++ up in
  let energy_deltas_wh := map (fun w => w / 3600) energy_deltas in
  Value (0 :: cumsum energy_deltas_wh).

(** The value [energy_use] returns (line 86) from the same inputs. *)
Definition energy_integral (depths net_forces : list Q) (depth : Q) : result Q :=
  c <- cumulative_energy_wh depths net_forces depth ;;
  index_last c.

(** [energy_use(params, depth, lung_condition, plot=False)]; the record is
    the caller's dictionary after the call. *)
Definition energy_use (p : params) (depth : Q) (lung_condition : string)
  : params * result Q :=
  let (p1, r) := plot_net_force_kgf p in
  (p1,
   dc <- r ;;
   let (depths, net_force_curves) := dc : list Q * list (string * list Q) in
   net_forces <- getitem net_force_curves lung_condition ;;
   energy_integral depths net_forces depth).

(** [np.argmin]: index of the first smallest element. *)
Fixpoint argmin_from (best : Q) (best_idx i : nat) (l : list Q) : nat :=
  match l with
  | [] => best_idx
  | x :: l' =>
      if Qlt_bool x best then argmin_from x i (S i) l'
      else argmin_from best best_idx (S i) l'
  end.

Definition argmin (l : list Q) : result nat :=
  match l with
  | [] => Raise ValueError
  | x :: l' => Value (argmin_from x 0 1 l')
  end.

(** [a, b, c = xs[i - 1:i + 2]] *)
Definition unpack3 (xs : list Q) (i : nat) : result (Q * Q * Q) :=
  match firstn 3 (skipn (i - 1) xs) with
  | [a; b; c] => Value (a, b, c)
  | _ => Raise ValueError
  end.

(** [np.polyfit([x1, x2, x3], [y1, y2, y3], 2)]: from three abscissae and
    three ordinates to the fitted coefficients, highest power first.  The
    fit is numpy's (a float64 least-squares solve), not this repository's:
    the optimizer takes it as a parameter. *)
Definition fit : Type := Q * Q * Q -> Q * Q * Q -> Q * Q * Q.

(** [np.polyval(coeffs, x)] for three coefficients (Horner from zero); at
    an [inf] or [nan] the value is no number either. *)
Definition polyval (coeffs : Q * Q * Q) (x : number) : number :=
  let '(a, b, c) := coeffs in
  match x with
  | Finite x => Finite (((0 * x + a) * x + b) * x + c)
  | NonFinite => NonFinite
  end.

(** The depths [optimal_weight_vs_depth] sweeps (line 192). *)
Definition sweep_depths (max_depth : Q) : list Q :=
  arange 1 (max_depth + 1) 0.5.

(** One entry of the [results] dictionary. *)
Record optimization_result : Type := mkResult {
  weights : list Q;
  energies : list Q;
  optimal_weight : number;
  minimum_energy : number
}.

Section Fit.

Variable polyfit : fit.

(** Lines 114-132: from the candidate weights and their energies to the
    reported (optimal_weight, min_energy). *)
Definition select_optimum (weights energies : list Q) : result (number * number) :=
  min_idx <- argmin energies ;;
  if (min_idx =? 0)%nat || (min_idx =? length weights - 1)%nat then
    optimal_weight <- index weights min_idx ;;
    min_energy <- index energies min_idx ;;
    Value (Finite optimal_weight, Finite min_energy)
  else
    xs <- unpack3 weights min_idx ;;
    ys <- unpack3 energies min_idx ;;
    let coeffs := polyfit xs ys in
    let '(a, b, c) := coeffs in
    let optimal_weight := npdiv (- b) (2 * a) in
    let min_energy := polyval coeffs optimal_weight in
    Value (optimal_weight, min_energy).

(** [energy_vs_weight(params, depth, weight_list, plot=False)].  Every probe
    runs on a private copy of the record, so the caller's is untouched. *)
Definition energy_vs_weight (p : params) (depth : Q) (weight_list : option (list Q))
  : result (list (string * optimization_result)) :=
  let weights :=
    match weight_list with
    | Some w => w
    | None => arange 0 12 0.2
    end in
  mapM (fun lung_condition =>
          energies <-
            mapM (fun weight =>
                    let params_with_weight := set_lead_weight p weight in
                    snd (energy_use params_with_weight depth lung_condition))
                 weights ;;
          om <- select_optimum weights energies ;;
          Value (lung_condition, mkResult weights energies (fst om) (snd om)))
       lung_conditions.

(** [optimal_weight_vs_depth(params, max_depth, plot=False)] *)
Definition optimal_weight_vs_depth (p : params) (max_depth : Q)
  : result (list (string * list number)) :=
  let depths := sweep_depths max_depth in
  _ <- mapM (getitem (lung_volumes p)) lung_conditions ;;
  per_depth <- mapM (fun depth => energy_vs_weight p depth None) depths ;;
  mapM (fun lung_condition =>
          ws <- mapM (fun results =>
                        r <- getitem results lung_condition ;;
                        Value (optimal_weight r))
                     per_depth ;;
          Value (lung_condition, ws))
       lung_conditions.

End Fit.

End LeadOptimizer.

(** ** The specification's formulas

    Definitions written from the specification's sentences, to be compared
    with the code's. *)

Module Spec.

(** Lung volume at depth: residual + (surface - residual) / (1 + d/10). *)
Definition lung_volume_at_depth (surface residual d : Q) : Q :=
  residual + (surface - residual) / (1 + d / 10).

(** Fat volume, fixed density 0.9 g/cm^3, shrinking 0.1 % per metre. *)
Definition fat_volume (m fat_fraction d : Q) : Q :=
  (m * fat_fraction * 1000 / 0.9) / (1 + d * 0.1 / 100).

(** Lean volume, fixed density 1.1 g/cm^3, shrinking 0.05 % per metre. *)
Definition lean_volume (m fat_fraction d : Q) : Q :=
  (m * (1 - fat_fraction) * 1000 / 1.1) / (1 + d * 0.05 / 100).

(** Wetsuit volume, compressed linearly; the fraction is percent / 100. *)
Definition wetsuit_volume (wm wd percent_per_metre d : Q) : Q :=
  (wm * 1000 / wd) * (1 - (percent_per_metre / 100) * d).

(** Lead displacement: lead / 11340 m^3, scaled by 1e6 into the cm^3 sum. *)
Definition lead_displacement (lead : Q) : Q :=
  lead / 11340 * 1000000.

(** Total displaced volume in m^3: the cm^3 sum converted by 1e-6. *)
Definition displaced_volume (p : Freediving.params) (lung_litres d : Q) : Q :=
  (lung_volume_at_depth (lung_litres * 1000) (Freediving.residual_volume p) d
   + fat_volume (Freediving.mass p) (Freediving.body_fat_percentage p) d
   + lean_volume (Freediving.mass p) (Freediving.body_fat_percentage p) d
   + wetsuit_volume (Freediving.wetsuit_mass p) (Freediving.wetsuit_density p)
       (Freediving.wetsuit_compressibility_factor p) d
   + Freediving.snorkel_mask_volume p
   + lead_displacement (Freediving.lead_weight p)) * (1 # 1000000).

Definition buoyant_force (volume density : Q) : Q := volume * density * 9.81.

Definition weight_force (p : Freediving.params) : Q :=
  (Freediving.mass p + Freediving.wetsuit_mass p + Freediving.lead_weight p) * 9.81.

(** Net force (kgf) = (buoyant force - weight force) / 9.81. *)
Definition net_force (p : Freediving.params) (density lung_litres d : Q) : Q :=
  (buoyant_force (displaced_volume p lung_litres d) density - weight_force p) / 9.81.

(** A force curve restricted to the grid depths not beyond the target:
    samples (depth, force in kgf), in grid order. *)
Definition restrict (depths forces : list Q) (target : Q) : list (Q * Q) :=
  filter (fun s => Qle_bool (fst s) target) (combine depths forces).

(** Descent: one work increment in joules per consecutive pair
    (d_i, d_(i+1)), from the force at d_i. *)
Fixpoint descent_joules (samples : list (Q * Q)) : list Q :=
  match samples with
  | (d0, f0) :: (((d1, _) :: _) as rest) =>
      (if Qlt_bool 0 f0 then f0 * 9.81 * Qabs (d1 - d0) else 0)
        :: descent_joules rest
  | _ => []
  end.

(** Ascent increments listed in descent order of the pairs
    (d_(i-1), d_i), from the force at the deeper point d_i; the ascent
    itself walks them in reverse. *)
Fixpoint ascent_joules_rev (samples : list (Q * Q)) : list Q :=
  match samples with
  | (d0, _) :: (((d1, f1) :: _) as rest) =>
      (if Qlt_bool f1 0 then Qabs (f1 * 9.81 * (d1 - d0)) else 0)
        :: ascent_joules_rev rest
  | _ => []
  end.

Definition ascent_joules (samples : list (Q * Q)) : list Q :=
  rev (ascent_joules_rev samples).

(** Increments in watt-hours, descent then ascent. *)
Definition increments_wh (samples : list (Q * Q)) : list Q :=
  map (fun j => j / 3600) (descent_joules samples ++ ascent_joules samples).

(** Running sum starting at [acc]; the sequence lists every partial sum. *)
Fixpoint running_sum (acc : Q) (incs : list Q) : list Q :=
  acc :: match incs with
         | [] => []
         | x :: incs' => running_sum (acc + x) incs'
         end.

Definition cumulative (samples : list (Q * Q)) : list Q :=
  running_sum 0 (increments_wh samples).

Definition total (samples : list (Q * Q)) : Q :=
  last (cumulative samples) 0.

(** A sequence that never decreases from one element to the next. *)
Fixpoint non_decreasing (l : list Q) : Prop :=
  match l with
  | x :: ((y :: _) as l') => x <= y /\ non_decreasing l'
  | _ => True
  end.


(** The parabola through three samples with pairwise distinct abscissae, in
    Lagrange form: what an exact fit returns.  One value the fit parameter
    can take; it runs the optimizer on concrete inputs. *)
Definition exact_fit : LeadOptimizer.fit :=
  fun xs ys =>
    let '(x1, x2, x3) := xs in
    let '(y1, y2, y3) := ys in
    let l1 := y1 / ((x1 - x2) * (x1 - x3)) in
    let l2 := y2 / ((x2 - x1) * (x2 - x3)) in
    let l3 := y3 / ((x3 - x1) * (x3 - x2)) in
    (l1 + l2 + l3,
     - (l1 * (x2 + x3) + l2 * (x1 + x3) + l3 * (x1 + x2)),
     l1 * (x2 * x3) + l2 * (x1 * x3) + l3 * (x1 * x2)).

End Spec.

(** * Properties *)

Import Freediving LeadOptimizer.

(** ** Comparisons and the outcome monad *)

Lemma Qlt_bool_iff (x y : Q) : Qlt_bool x y = true <-> x < y.
Proof.
  unfold Qlt_bool. rewrite negb_true_iff. split; intro H.
  - apply Qnot_le_lt. intro Hle. apply Qle_bool_iff in Hle. congruence.
  - destruct (Qle_bool y x) eqn:E; [|reflexivity].
    apply Qle_bool_iff in E. exfalso. apply (Qlt_not_le _ _ H E).
Qed.

Lemma Qlt_bool_false_iff (x y : Q) : Qlt_bool x y = false <-> y <= x.
Proof.
  unfold Qlt_bool. rewrite negb_false_iff. apply Qle_bool_iff.
Qed.

Lemma Qeq_bool_false (x y : Q) : ~ x == y -> Qeq_bool x y = false.
Proof.
  intro H. destruct (Qeq_bool x y) eqn:E; [|reflexivity].
  apply Qeq_bool_iff in E. contradiction.
Qed.

Lemma pydiv_value (x y : Q) : ~ y == 0 -> pydiv x y = Value (x / y).
Proof. intro H. unfold pydiv. now rewrite (Qeq_bool_false _ _ H). Qed.

Lemma pydiv_zero (x y : Q) : y == 0 -> pydiv x y = Raise ZeroDivisionError.
Proof.
  intro H. unfold pydiv. apply Qeq_bool_iff in H. now rewrite H.
Qed.

(** ** Density Model *)

(** C9.  The density returned for a water type and a temperature is
    (1.000 + 0.0008 s - 0.0003 t) x 1000 with s = 35 for "sea" and s = 0 for
    every other type; the function is total, and the per-salinity formula it
    relies on is the stated one for every salinity. *)
Theorem density_model (wt : string) (s t : Q) :
  get_salinity_and_density wt t
    == (1.000 + 0.0008 * (if String.eqb wt "sea" then 35 else 0) - 0.0003 * t) * 1000
  /\ get_salinity_and_density wt t
    == (if String.eqb wt "sea" then 1028 - 0.3 * t else 1000 - 0.3 * t)
  /\ calculate_seawater_density s t * 1000
    == (1.000 + 0.0008 * s - 0.0003 * t) * 1000.
Proof.
  unfold get_salinity_and_density, calculate_seawater_density.
  destruct (String.eqb wt "sea"); repeat split; try reflexivity; field.
Qed.

(** ** Force Model *)

(** The record the depth loop reads: the caller's, with the density set. *)
Lemma loop_record_density (p : params) :
  get_seawater_density (fst (plot_net_force_kgf p))
  = Value (get_salinity_and_density (water_type p) (temperature p)).
Proof. reflexivity. Qed.

(** The divisors of the submerged branch are positive, so numpy's division
    never meets a zero there. *)
Lemma submerged_divisors_positive (d : Q) :
  0 <= d -> 0 < 1 + d / 10 /\ 0 < 1 + d * 0.1 / 100 /\ 0 < 1 + d * 0.05 / 100.
Proof.
  intro H. repeat split.
  - assert (E : d / 10 == d * (1 # 10)) by field. rewrite E. lra.
  - assert (E : d * 0.1 / 100 == d * (1 # 1000)) by field. rewrite E. lra.
  - assert (E : d * 0.05 / 100 == d * (1 # 2000)) by field. rewrite E. lra.
Qed.

Lemma net_force_submerged (p : params) (rho lv d : Q) :
  0 <= d -> ~ wetsuit_density p == 0 -> seawater_density p = Some rho ->
  exists v, net_force_kgf p lv d = Value v /\ v == Spec.net_force p rho lv d.
Proof.
  intros Hd Hw Hr. unfold net_force_kgf.
  apply Qlt_bool_false_iff in Hd. rewrite Hd.
  rewrite (pydiv_value _ _ Hw). unfold get_seawater_density. rewrite Hr.
  cbn [bind]. eexists. split; [reflexivity|].
  unfold Spec.net_force, Spec.buoyant_force, Spec.weight_force,
    Spec.displaced_volume, Spec.lung_volume_at_depth, Spec.fat_volume,
    Spec.lean_volume, Spec.wetsuit_volume, Spec.lead_displacement.
  apply Qlt_bool_false_iff in Hd.
  field. repeat split; try assumption; intro E; lra.
Qed.

(** What one more kilogram of lead does below the surface: the buoyancy
    gained through its displaced volume against the weight added. *)
Lemma net_force_lead_difference (p : params) (rho lv d w1 w2 : Q) :
  0 <= d -> ~ wetsuit_density p == 0 ->
  Spec.net_force (set_lead_weight p w1) rho lv d
  - Spec.net_force (set_lead_weight p w2) rho lv d
  == (w2 - w1) * (1 - rho / 11340).
Proof.
  intros Hd Hw.
  unfold Spec.net_force, Spec.buoyant_force, Spec.weight_force,
    Spec.displaced_volume, Spec.lung_volume_at_depth, Spec.fat_volume,
    Spec.lean_volume, Spec.wetsuit_volume, Spec.lead_displacement.
  cbn [set_lead_weight mass body_fat_percentage residual_volume wetsuit_mass
       wetsuit_density snorkel_mask_volume lead_weight
       wetsuit_compressibility_factor].
  field. repeat split; try assumption; intro E; lra.
Qed.

Lemma net_force_submerged_loop (p : params) (lv d : Q) :
  0 <= d -> ~ wetsuit_density p == 0 ->
  exists v,
    net_force_kgf (fst (plot_net_force_kgf p)) lv d = Value v
    /\ v == Spec.net_force p
              (get_salinity_and_density (water_type p) (temperature p)) lv d.
Proof.
  intros Hd Hw.
  apply (net_force_submerged (fst (plot_net_force_kgf p))
           (get_salinity_and_density (water_type p) (temperature p)) lv d Hd);
    [exact Hw | reflexivity].
Qed.

(** C1.  At every depth d >= 0, for every lung volume and every record
    (its wetsuit density not zero, or the division in the source raises), the
    loop of the Force Model yields the net force of the specification:
    (buoyant force - weight force) / 9.81 over the displaced volume summed in
    cm^3 and converted by 1e-6, at the density the call resolves. *)
Theorem force_model_submerged (p : params) (lung_volume d : Q) :
  0 <= d -> ~ wetsuit_density p == 0 ->
  exists v,
    net_force_kgf (fst (plot_net_force_kgf p)) lung_volume d = Value v
    /\ v == (Spec.buoyant_force (Spec.displaced_volume p lung_volume d)
               (get_salinity_and_density (water_type p) (temperature p))
             - Spec.weight_force p) / 9.81.
Proof.
  intros Hd Hw. exact (net_force_submerged_loop p lung_volume d Hd Hw).
Qed.

Lemma force_model_submerged_witness :
  exists v,
    net_force_kgf (fst (plot_net_force_kgf example_params)) 6.5 10 = Value v
    /\ v == (Spec.buoyant_force (Spec.displaced_volume example_params 6.5 10)
               (get_salinity_and_density (water_type example_params)
                  (temperature example_params))
             - Spec.weight_force example_params) / 9.81.
Proof.
  apply (force_model_submerged example_params 6.5 10).
  - vm_compute. discriminate.
  - vm_compute. discriminate.
Defined.

(** With a wetsuit density of zero the submerged branch raises. *)
Lemma net_force_zero_wetsuit_density (p : params) (lv d : Q) :
  0 <= d -> wetsuit_density p == 0 ->
  net_force_kgf p lv d = Raise ZeroDivisionError.
Proof.
  intros Hd Hw. unfold net_force_kgf.
  apply Qlt_bool_false_iff in Hd. rewrite Hd.
  now rewrite (pydiv_zero _ _ Hw).
Qed.

(** C7.  Above the surface (d < 0) the net force is -(mass + wetsuit mass)
    whatever the lead weight; below it, two different lead weights give two
    different forces (at any density other than lead's own). *)
Theorem force_model_above_surface (p : params) (lung_volume d : Q) :
  d < 0 ->
  (exists v, net_force_kgf p lung_volume d = Value v
             /\ v == - (mass p + wetsuit_mass p))
  /\ (forall w, net_force_kgf (set_lead_weight p w) lung_volume d
                = net_force_kgf p lung_volume d)
  /\ (forall d' w1 w2 f1 f2,
         0 <= d' -> ~ w1 == w2 ->
         ~ get_salinity_and_density (water_type p) (temperature p) == 11340 ->
         net_force_kgf (fst (plot_net_force_kgf (set_lead_weight p w1)))
           lung_volume d' = Value f1 ->
         net_force_kgf (fst (plot_net_force_kgf (set_lead_weight p w2)))
           lung_volume d' = Value f2 ->
         ~ f1 == f2).
Proof.
  intro Hd. apply Qlt_bool_iff in Hd. repeat split.
  - exists (- mass p - wetsuit_mass p). unfold net_force_kgf. rewrite Hd.
    split; [reflexivity | ring].
  - intro w. unfold net_force_kgf. rewrite Hd. reflexivity.
  - intros d' w1 w2 f1 f2 Hd' Hw Hrho H1 H2 Heq.
    destruct (Qeq_dec (wetsuit_density p) 0) as [Hz | Hnz].
    + rewrite net_force_zero_wetsuit_density in H1; [discriminate | assumption | exact Hz].
    + destruct (net_force_submerged_loop (set_lead_weight p w1) lung_volume d' Hd' Hnz)
        as (v1 & E1 & V1).
      destruct (net_force_submerged_loop (set_lead_weight p w2) lung_volume d' Hd' Hnz)
        as (v2 & E2 & V2).
      rewrite H1 in E1. rewrite H2 in E2.
      injection E1 as <-. injection E2 as <-.
      cbn [set_lead_weight water_type temperature] in V1, V2.
      pose proof (net_force_lead_difference p
                    (get_salinity_and_density (water_type p) (temperature p))
                    lung_volume d' w1 w2 Hd' Hnz) as D.
      rewrite <- V1, <- V2, Heq in D.
      set (rho := get_salinity_and_density (water_type p) (temperature p)) in *.
      assert (Z : (w2 - w1) * (1 - rho / 11340) == 0) by (rewrite <- D; ring).
      apply Qmult_integral in Z. destruct Z as [Z | Z].
      * apply Hw. lra.
      * apply Hrho. assert (E : rho / 11340 == rho * (1 # 11340)) by field.
        rewrite E in Z. lra.
Qed.

Lemma force_model_above_surface_witness :
  (exists v, net_force_kgf example_params 6.5 (-1) = Value v
             /\ v == - (mass example_params + wetsuit_mass example_params))
  /\ (forall w, net_force_kgf (set_lead_weight example_params w) 6.5 (-1)
                = net_force_kgf example_params 6.5 (-1)).
Proof.
  assert (H : -1 < 0) by (vm_compute; reflexivity).
  split.
  - exact (proj1 (force_model_above_surface example_params 6.5 (-1) H)).
  - exact (proj1 (proj2 (force_model_above_surface example_params 6.5 (-1) H))).
Defined.

(** C10, amended.  Below the surface, at a resolved density under lead's
    11340 kg/m^3, the net force the code's formula defines, evaluated
    exactly, is strictly decreasing in the lead weight. *)
Theorem net_force_decreasing_in_lead (p : params) (lung_volume d w1 w2 : Q) :
  0 <= d -> ~ wetsuit_density p == 0 ->
  get_salinity_and_density (water_type p) (temperature p) < 11340 ->
  w1 < w2 ->
  exists f1 f2,
    net_force_kgf (fst (plot_net_force_kgf (set_lead_weight p w1))) lung_volume d
      = Value f1
    /\ net_force_kgf (fst (plot_net_force_kgf (set_lead_weight p w2))) lung_volume d
      = Value f2
    /\ f2 < f1.
Proof.
  intros Hd Hnz Hrho Hw.
  destruct (net_force_submerged_loop (set_lead_weight p w1) lung_volume d Hd Hnz)
    as (v1 & E1 & V1).
  destruct (net_force_submerged_loop (set_lead_weight p w2) lung_volume d Hd Hnz)
    as (v2 & E2 & V2).
  exists v1, v2. repeat split; try assumption.
  cbn [set_lead_weight water_type temperature] in V1, V2.
  pose proof (net_force_lead_difference p
                (get_salinity_and_density (water_type p) (temperature p))
                lung_volume d w1 w2 Hd Hnz) as D.
  rewrite <- V1, <- V2 in D.
  set (rho := get_salinity_and_density (water_type p) (temperature p)) in *.
  assert (P : 0 < (w2 - w1) * (1 - rho / 11340)).
  { apply Qmult_lt_0_compat; [lra|].
    assert (E : rho / 11340 == rho * (1 # 11340)) by field.
    rewrite E. lra. }
  rewrite <- D in P. lra.
Qed.

Lemma net_force_decreasing_in_lead_witness :
  exists f1 f2,
    net_force_kgf (fst (plot_net_force_kgf (set_lead_weight example_params 1)))
      6.5 10 = Value f1
    /\ net_force_kgf (fst (plot_net_force_kgf (set_lead_weight example_params 2)))
      6.5 10 = Value f2
    /\ f2 < f1.
Proof.
  apply (net_force_decreasing_in_lead example_params 6.5 10 1 2).
  - vm_compute. discriminate.
  - vm_compute. discriminate.
  - vm_compute. reflexivity.
  - vm_compute. reflexivity.
Defined.

(** C10 fails as stated of the values the program computes.  Over binary64,
    on the example record at 10 m with full lungs (density under 11340),
    raising the lead weight from 3.3000000000000815 kg to the next double,
    3.300000000000082 kg, raises the net force from 1.8998981409723852 to
    1.8998981409723967 kgf. *)
Lemma binary64_force_rises_with_lead :
  PrimFloat.ltb 0 10 = true
  /\ PrimFloat.ltb (Binary64.get_salinity_and_density "sea" 22) 11340 = true
  /\ PrimFloat.ltb 0x1.a66666666671ep+1 0x1.a66666666671fp+1 = true
  /\ Binary64.net_force_kgf
       (Binary64.set_lead_weight Binary64.example_params 0x1.a66666666671ep+1)
       6.5 10
     = Value 0x1.e65fb97d3524cp+0%float
  /\ Binary64.net_force_kgf
       (Binary64.set_lead_weight Binary64.example_params 0x1.a66666666671fp+1)
       6.5 10
     = Value 0x1.e65fb97d35280p+0%float
  /\ PrimFloat.ltb 0x1.e65fb97d3524cp+0 0x1.e65fb97d35280p+0 = true.
Proof. repeat split; vm_compute; reflexivity. Qed.

(** ** Force Profile Generator *)

(** C8 fails as stated: on the example record, which has no density entry,
    the call adds one. *)
Lemma force_profile_changes_record :
  seawater_density example_params = None
  /\ seawater_density (fst (plot_net_force_kgf example_params)) <> None
  /\ fst (plot_net_force_kgf example_params) <> example_params.
Proof.
  split; [reflexivity|]. split.
  - cbn. discriminate.
  - intro H. apply (f_equal seawater_density) in H. cbn in H. discriminate.
Qed.

(** C8, amended.  A call (plotting disabled) writes exactly one entry of the
    caller's record: the seawater density, set to the density resolved from
    the water type and temperature, whether or not the call then succeeds.
    Every other field is left as it was. *)
Theorem force_profile_frame (p : params) :
  let p' := fst (plot_net_force_kgf p) in
  seawater_density p'
    = Some (get_salinity_and_density (water_type p) (temperature p))
  /\ mass p' = mass p /\ height p' = height p
  /\ body_fat_percentage p' = body_fat_percentage p
  /\ lung_volumes p' = lung_volumes p
  /\ residual_volume p' = residual_volume p
  /\ wetsuit_mass p' = wetsuit_mass p
  /\ wetsuit_density p' = wetsuit_density p
  /\ snorkel_mask_volume p' = snorkel_mask_volume p
  /\ lead_weight p' = lead_weight p
  /\ water_type p' = water_type p
  /\ temperature p' = temperature p
  /\ wetsuit_compressibility_factor p' = wetsuit_compressibility_factor p
  /\ x_limits p' = x_limits p
  /\ y_limits p' = y_limits p.
Proof.
  cbn. repeat split.
Qed.

(** ** Energy Integrator *)

Lemma mapM_app {A B : Type} (f : A -> result B) (l1 l2 : list A) (r1 r2 : list B) :
  mapM f l1 = Value r1 -> mapM f l2 = Value r2 ->
  mapM f (l1 ++ l2) = Value (r1 ++ r2).
Proof.
  revert r1. induction l1 as [|a l1 IH]; intros r1 H1 H2; cbn in *.
  - injection H1 as <-. exact H2.
  - destruct (f a) as [b|e]; cbn in *; [|discriminate].
    destruct (mapM f l1) as [bs|e]; cbn in *; [|discriminate].
    injection H1 as <-. rewrite (IH bs eq_refl H2). reflexivity.
Qed.

Lemma mapM_rev {A B : Type} (f : A -> result B) (l : list A) (r : list B) :
  mapM f l = Value r -> mapM f (rev l) = Value (rev r).
Proof.
  revert r. induction l as [|a l IH]; intros r H; cbn in *.
  - injection H as <-. reflexivity.
  - destruct (f a) as [b|e] eqn:Ea; cbn in *; [|discriminate].
    destruct (mapM f l) as [bs|e]; cbn in *; [|discriminate].
    injection H as <-. cbn. apply mapM_app; [apply IH; reflexivity|].
    cbn. rewrite Ea. reflexivity.
Qed.

Lemma mapM_length {A B : Type} (f : A -> result B) (l : list A) (r : list B) :
  mapM f l = Value r -> length r = length l.
Proof.
  revert r. induction l as [|a l IH]; intros r H; cbn in *.
  - injection H as <-. reflexivity.
  - destruct (f a) as [b|e]; cbn in *; [|discriminate].
    destruct (mapM f l) as [bs|e]; cbn in *; [|discriminate].
    injection H as <-. cbn. f_equal. apply IH. reflexivity.
Qed.

Lemma index_middle {A : Type} (pre rest : list A) (x : A) :
  index (pre ++ x :: rest) (length pre) = Value x.
Proof.
  unfold index. rewrite nth_error_app2 by lia.
  rewrite Nat.sub_diag. reflexivity.
Qed.

Lemma index_fst_middle (pre rest : list (Q * Q)) (s : Q * Q) :
  index (map fst (pre ++ s :: rest)) (length pre) = Value (fst s).
Proof.
  rewrite map_app. cbn [map].
  rewrite <- (length_map fst pre). apply index_middle.
Qed.

Lemma index_snd_middle (pre rest : list (Q * Q)) (s : Q * Q) :
  index (map snd (pre ++ s :: rest)) (length pre) = Value (snd s).
Proof.
  rewrite map_app. cbn [map].
  rewrite <- (length_map snd pre). apply index_middle.
Qed.

Lemma shift_middle {A : Type} (pre rest : list A) (x : A) :
  pre ++ x :: rest = (pre ++ [x]) ++ rest.
Proof. rewrite <- app_assoc. reflexivity. Qed.

Lemma positive_scale (f : Q) : Qlt_bool 0 (f * 9.81) = Qlt_bool 0 f.
Proof.
  apply eq_true_iff_eq. rewrite !Qlt_bool_iff. split; intro H; lra.
Qed.

Lemma negative_scale (f : Q) : Qlt_bool (f * 9.81) 0 = Qlt_bool f 0.
Proof.
  apply eq_true_iff_eq. rewrite !Qlt_bool_iff. split; intro H; lra.
Qed.

(** The downward loop, started at index [length pre], computes the
    specification's descent increments of the remaining samples. *)
Lemma descent_loop (rest pre : list (Q * Q)) :
  mapM (descent_work (map fst (pre ++ rest)) (map snd (pre ++ rest)))
       (seq (length pre) (length rest - 1))
  = Value (Spec.descent_joules rest).
Proof.
  revert pre. induction rest as [|[d0 f0] rest IH]; intro pre; [reflexivity|].
  destruct rest as [|[d1 f1] rest]; [reflexivity|].
  replace (length ((d0, f0) :: (d1, f1) :: rest) - 1)%nat
    with (S (length ((d1, f1) :: rest) - 1)) by (cbn; lia).
  cbn [seq mapM].
  assert (Hstep : descent_work (map fst (pre ++ (d0, f0) :: (d1, f1) :: rest))
                    (map snd (pre ++ (d0, f0) :: (d1, f1) :: rest)) (length pre)
                  = Value (if Qlt_bool 0 f0 then f0 * 9.81 * Qabs (d1 - d0) else 0)).
  { unfold descent_work. rewrite index_snd_middle, index_fst_middle. cbn [bind fst snd].
    rewrite (shift_middle pre ((d1, f1) :: rest) (d0, f0)).
    replace (length pre + 1)%nat with (length (pre ++ [(d0, f0)]))
      by (rewrite length_app; reflexivity).
    rewrite index_fst_middle. cbn [bind fst]. rewrite positive_scale. reflexivity. }
  rewrite Hstep. cbn [bind].
  rewrite (shift_middle pre ((d1, f1) :: rest) (d0, f0)).
  replace (S (length pre)) with (length (pre ++ [(d0, f0)]))
    by (rewrite length_app; cbn; lia).
  rewrite IH. reflexivity.
Qed.

(** The upward loop's indices, taken in increasing order. *)
Lemma ascent_loop (rest pre : list (Q * Q)) :
  mapM (ascent_work (map fst (pre ++ rest)) (map snd (pre ++ rest)))
       (seq (S (length pre)) (length rest - 1))
  = Value (Spec.ascent_joules_rev rest).
Proof.
  revert pre. induction rest as [|[d0 f0] rest IH]; intro pre; [reflexivity|].
  destruct rest as [|[d1 f1] rest]; [reflexivity|].
  replace (length ((d0, f0) :: (d1, f1) :: rest) - 1)%nat
    with (S (length ((d1, f1) :: rest) - 1)) by (cbn; lia).
  cbn [seq mapM].
  assert (Hstep : ascent_work (map fst (pre ++ (d0, f0) :: (d1, f1) :: rest))
                    (map snd (pre ++ (d0, f0) :: (d1, f1) :: rest)) (S (length pre))
                  = Value (if Qlt_bool f1 0 then Qabs (f1 * 9.81 * (d1 - d0)) else 0)).
  { unfold ascent_work. replace (S (length pre) - 1)%nat with (length pre) by lia.
    rewrite (index_fst_middle pre ((d1, f1) :: rest) (d0, f0)).
    rewrite (shift_middle pre ((d1, f1) :: rest) (d0, f0)).
    replace (S (length pre)) with (length (pre ++ [(d0, f0)]))
      by (rewrite length_app; cbn; lia).
    rewrite index_snd_middle, index_fst_middle. cbn [bind fst snd].
    rewrite negative_scale. reflexivity. }
  rewrite Hstep. cbn [bind].
  rewrite (shift_middle pre ((d1, f1) :: rest) (d0, f0)).
  replace (S (length pre)) with (length (pre ++ [(d0, f0)]))
    by (rewrite length_app; cbn; lia).
  rewrite IH. reflexivity.
Qed.

(** The two masked arrays are the two columns of the restricted curve. *)
Lemma mask_select_restrict (depths forces : list Q) (target : Q) :
  length depths = length forces ->
  mask_select (map (fun d => Qle_bool d target) depths) depths
  = Value (map fst (Spec.restrict depths forces target))
  /\ mask_select (map (fun d => Qle_bool d target) depths) forces
  = Value (map snd (Spec.restrict depths forces target)).
Proof.
  revert forces. induction depths as [|d depths IH]; intros [|f forces] H;
    try discriminate; [split; reflexivity|].
  injection H as H. destruct (IH forces H) as [E1 E2].
  unfold Spec.restrict in *. cbn [map mask_select combine filter fst].
  rewrite E1, E2. cbn [bind]. destruct (Qle_bool d target); split; reflexivity.
Qed.

Lemma restrict_nonempty (depths forces : list Q) (target : Q) :
  length depths = length forces ->
  Exists (fun d => d <= target) depths ->
  Spec.restrict depths forces target <> [].
Proof.
  intros H Hex. revert forces H.
  induction Hex as [d depths Hd | d depths Hex IH]; intros [|f forces] H;
    try discriminate; unfold Spec.restrict; cbn [combine filter fst].
  - apply Qle_bool_iff in Hd. rewrite Hd. discriminate.
  - injection H as H. destruct (Qle_bool d target); [discriminate|].
    apply IH. exact H.
Qed.

Lemma restrict_length (depths forces : list Q) (target : Q) :
  length depths = length forces ->
  length (Spec.restrict depths forces target)
  = length (filter (fun d => Qle_bool d target) depths).
Proof.
  revert forces. induction depths as [|d depths IH]; intros [|f forces] H;
    try discriminate; [reflexivity|].
  injection H as H. unfold Spec.restrict in *. cbn [combine filter fst].
  destruct (Qle_bool d target); cbn [length]; rewrite (IH forces H); reflexivity.
Qed.

(** The cumulative sequence the code builds, on a non-empty range. *)
Lemma cumulative_energy_value (depths forces : list Q) (target : Q) :
  length depths = length forces ->
  Spec.restrict depths forces target <> [] ->
  cumulative_energy_wh depths forces target
  = Value (0 :: cumsum (Spec.increments_wh (Spec.restrict depths forces target))).
Proof.
  intros H Hne. unfold cumulative_energy_wh.
  destruct (mask_select_restrict depths forces target H) as [E1 E2].
  rewrite E1, E2. cbn [bind].
  set (l := Spec.restrict depths forces target) in *.
  destruct l as [|s l'] eqn:El; [contradiction|]. rewrite <- El.
  replace (index (map fst l) 0) with (Value (fst s)) by (rewrite El; reflexivity).
  cbn [bind]. rewrite length_map.
  pose proof (descent_loop l []) as D. cbn [app length] in D. rewrite D.
  pose proof (ascent_loop l []) as A. cbn [app length] in A.
  rewrite (mapM_rev _ _ _ A). reflexivity.
Qed.

(** On an empty range line 18 indexes an empty array. *)
Lemma cumulative_energy_empty (depths forces : list Q) (target : Q) :
  length depths = length forces ->
  Spec.restrict depths forces target = [] ->
  cumulative_energy_wh depths forces target = Raise IndexError.
Proof.
  intros H He. unfold cumulative_energy_wh.
  destruct (mask_select_restrict depths forces target H) as [E1 E2].
  rewrite E1, E2, He. reflexivity.
Qed.

Lemma running_sum_cumsum_from (acc : Q) (l : list Q) :
  Spec.running_sum acc l = acc :: cumsum_from acc l.
Proof.
  revert acc. induction l as [|x l IH]; intro acc; [reflexivity|].
  cbn [Spec.running_sum cumsum_from]. rewrite IH. reflexivity.
Qed.

Lemma cumsum_from_eq (a b : Q) (l : list Q) :
  a == b -> Forall2 Qeq (cumsum_from a l) (cumsum_from b l).
Proof.
  revert a b. induction l as [|x l IH]; intros a b H; cbn; constructor.
  - rewrite H. reflexivity.
  - apply IH. rewrite H. reflexivity.
Qed.

Lemma cumulative_matches (l : list Q) :
  Forall2 Qeq (0 :: cumsum l) (Spec.running_sum 0 l).
Proof.
  rewrite running_sum_cumsum_from. constructor; [reflexivity|].
  destruct l as [|x l]; cbn; constructor.
  - ring.
  - apply cumsum_from_eq. ring.
Qed.

Lemma Forall2_last (l1 l2 : list Q) (d : Q) :
  Forall2 Qeq l1 l2 -> last l1 d == last l2 d.
Proof.
  induction 1 as [|x y l1 l2 Hxy Hl IH]; [reflexivity|].
  destruct Hl; [exact Hxy | exact IH].
Qed.

Lemma index_last_last {A : Type} (xs : list A) (d : A) :
  xs <> [] -> index_last xs = Value (last xs d).
Proof.
  intro H. destruct (exists_last H) as (l' & a & ->).
  unfold index_last. rewrite rev_app_distr, last_last. reflexivity.
Qed.

(** C2.  On a force curve (as many forces as depths) with at least one grid
    depth within the target, the value returned is the total the
    specification describes: the last partial sum, from 0, of the descent
    increments followed by the ascent increments, each divided by 3600. *)
Theorem energy_integrator_total (depths forces : list Q) (target : Q) :
  length depths = length forces ->
  Exists (fun d => d <= target) depths ->
  exists e,
    energy_integral depths forces target = Value e
    /\ e == Spec.total (Spec.restrict depths forces target).
Proof.
  intros H Hex. unfold energy_integral.
  rewrite (cumulative_energy_value depths forces target H
             (restrict_nonempty depths forces target H Hex)).
  cbn [bind]. eexists. split.
  - apply index_last_last with (d := 0). discriminate.
  - unfold Spec.total, Spec.cumulative. apply Forall2_last, cumulative_matches.
Qed.

Lemma energy_integrator_total_witness :
  exists e,
    energy_integral [0; 1; 2; 3] [1; -1; 2; -2] 2 = Value e
    /\ e == Spec.total (Spec.restrict [0; 1; 2; 3] [1; -1; 2; -2] 2).
Proof.
  apply (energy_integrator_total [0; 1; 2; 3] [1; -1; 2; -2] 2).
  - reflexivity.
  - apply Exists_cons_hd. vm_compute. discriminate.
Defined.

(** A worked dive: buoyant on the first metre down, heavy on the way up from
    two metres; 9.81 J each way. *)
Example energy_integral_worked :
  exists e, energy_integral [0; 1; 2; 3] [1; -1; 2; -2] 2 = Value e
            /\ e == 19.62 / 3600.
Proof. eexists. split; [vm_compute; reflexivity | reflexivity]. Qed.

Lemma descent_joules_nonneg (l : list (Q * Q)) :
  Forall (fun x => 0 <= x) (Spec.descent_joules l).
Proof.
  induction l as [|[d0 f0] l IH]; [constructor|].
  destruct l as [|[d1 f1] l]; [constructor|].
  cbn [Spec.descent_joules]. constructor; [|exact IH].
  destruct (Qlt_bool 0 f0) eqn:E; [|lra].
  apply Qlt_bool_iff in E.
  apply Qmult_le_0_compat; [lra | apply Qabs_nonneg].
Qed.

Lemma ascent_joules_rev_nonneg (l : list (Q * Q)) :
  Forall (fun x => 0 <= x) (Spec.ascent_joules_rev l).
Proof.
  induction l as [|[d0 f0] l IH]; [constructor|].
  destruct l as [|[d1 f1] l]; [constructor|].
  cbn [Spec.ascent_joules_rev]. constructor; [|exact IH].
  destruct (Qlt_bool f1 0); [apply Qabs_nonneg | lra].
Qed.

Lemma increments_nonneg (l : list (Q * Q)) :
  Forall (fun x => 0 <= x) (Spec.increments_wh l).
Proof.
  unfold Spec.increments_wh, Spec.ascent_joules.
  apply Forall_map, Forall_app. split.
  - eapply Forall_impl; [|apply descent_joules_nonneg].
    intros x Hx. cbn beta. unfold Qdiv. apply Qmult_le_0_compat; [exact Hx | discriminate].
  - apply Forall_rev.
    eapply Forall_impl; [|apply ascent_joules_rev_nonneg].
    intros x Hx. cbn beta. unfold Qdiv. apply Qmult_le_0_compat; [exact Hx | discriminate].
Qed.

Lemma last_indep_nonempty {A : Type} (l : list A) (d d' : A) :
  l <> [] -> last l d = last l d'.
Proof.
  induction l as [|a l IH]; intro H; [contradiction|].
  destruct l as [|b l]; [reflexivity|].
  change (last (b :: l) d = last (b :: l) d'). apply IH. discriminate.
Qed.

Lemma cumsum_from_monotone (acc : Q) (l : list Q) :
  Forall (fun x => 0 <= x) l ->
  Spec.non_decreasing (acc :: cumsum_from acc l)
  /\ acc <= last (acc :: cumsum_from acc l) acc.
Proof.
  intro H. revert acc. induction H as [|x l Hx Hl IH]; intro acc.
  - cbn. split; [exact I | lra].
  - destruct (IH (acc + x)) as [N L]. cbn [cumsum_from]. split.
    + cbn [Spec.non_decreasing]. split; [lra | exact N].
    + change (last (acc :: acc + x :: cumsum_from (acc + x) l) acc)
        with (last (acc + x :: cumsum_from (acc + x) l) acc).
      rewrite (last_indep_nonempty (acc + x :: cumsum_from (acc + x) l) acc (acc + x))
        by discriminate.
      lra.
Qed.

(** C3.  On a force curve with at least one grid depth within the target,
    the cumulative energy sequence starts at 0 and never decreases, and the
    returned total is not negative. *)
Theorem energy_profile_monotone (depths forces : list Q) (target : Q) :
  length depths = length forces ->
  Exists (fun d => d <= target) depths ->
  exists c e,
    cumulative_energy_wh depths forces target = Value c
    /\ energy_integral depths forces target = Value e
    /\ nth_error c 0 = Some 0
    /\ Spec.non_decreasing c
    /\ 0 <= e.
Proof.
  intros H Hex.
  pose proof (cumulative_energy_value depths forces target H
                (restrict_nonempty depths forces target H Hex)) as C.
  pose proof (increments_nonneg (Spec.restrict depths forces target)) as N.
  set (incs := Spec.increments_wh (Spec.restrict depths forces target)) in *.
  exists (0 :: cumsum incs), (last (0 :: cumsum incs) 0).
  split; [exact C|]. split.
  { unfold energy_integral. rewrite C. cbn [bind].
    apply index_last_last. discriminate. }
  split; [reflexivity|].
  destruct N as [|x l Hx Hl]; [cbn; split; [exact I | lra]|].
  destruct (cumsum_from_monotone x l Hl) as [M L]. cbn [cumsum]. split.
  - cbn [Spec.non_decreasing]. split; [exact Hx | exact M].
  - change (last (0 :: x :: cumsum_from x l) 0) with (last (x :: cumsum_from x l) 0).
    rewrite (last_indep_nonempty (x :: cumsum_from x l) 0 x) by discriminate.
    lra.
Qed.

Lemma energy_profile_monotone_witness :
  exists c e,
    cumulative_energy_wh [0; 1; 2; 3] [1; -1; 2; -2] 2 = Value c
    /\ energy_integral [0; 1; 2; 3] [1; -1; 2; -2] 2 = Value e
    /\ nth_error c 0 = Some 0
    /\ Spec.non_decreasing c
    /\ 0 <= e.
Proof.
  apply (energy_profile_monotone [0; 1; 2; 3] [1; -1; 2; -2] 2).
  - reflexivity.
  - apply Exists_cons_hd. vm_compute. discriminate.
Defined.

(** C5 fails as stated: on the example record a target of -1 m lies below
    the grid's minimum (0 m), and the call raises instead of returning 0. *)
Lemma energy_below_grid_raises :
  snd (energy_use example_params (-1) "full_lung") = Raise IndexError
  /\ ~ (exists e, snd (energy_use example_params (-1) "full_lung") = Value e
                  /\ e == 0).
Proof.
  assert (E : snd (energy_use example_params (-1) "full_lung") = Raise IndexError)
    by (vm_compute; reflexivity).
  split; [exact E|]. intros (e & He & _). rewrite E in He. discriminate.
Qed.

Lemma filter_all_beyond (depths : list Q) (target : Q) :
  (forall d, In d depths -> target < d) ->
  filter (fun d => Qle_bool d target) depths = [].
Proof.
  induction depths as [|d depths IH]; intro H; [reflexivity|].
  cbn [filter]. destruct (Qle_bool d target) eqn:E.
  - apply Qle_bool_iff in E. specialize (H d (or_introl eq_refl)). lra.
  - apply IH. intros d' Hd'. apply H. right. exact Hd'.
Qed.

(** C5, amended.  With exactly one grid depth within the target both passes
    are empty and the integrator returns 0; with none (in particular a target
    below every grid depth) it does not return: line 18 indexes the empty
    array and raises IndexError. *)
Theorem energy_degenerate_range (depths forces : list Q) (target : Q) :
  length depths = length forces ->
  (length (filter (fun d => Qle_bool d target) depths) = 1%nat ->
   energy_integral depths forces target = Value 0)
  /\ (length (filter (fun d => Qle_bool d target) depths) = 0%nat ->
      energy_integral depths forces target = Raise IndexError)
  /\ ((forall d, In d depths -> target < d) ->
      energy_integral depths forces target = Raise IndexError).
Proof.
  intro H.
  assert (Hnone : length (filter (fun d => Qle_bool d target) depths) = 0%nat ->
                  energy_integral depths forces target = Raise IndexError).
  { intro L. rewrite <- (restrict_length depths forces target H) in L.
    apply length_zero_iff_nil in L. unfold energy_integral.
    rewrite (cumulative_energy_empty depths forces target H L). reflexivity. }
  split; [|split; [exact Hnone|]].
  - intro L. rewrite <- (restrict_length depths forces target H) in L.
    unfold energy_integral.
    rewrite (cumulative_energy_value depths forces target H)
      by (intro E; rewrite E in L; discriminate).
    destruct (Spec.restrict depths forces target) as [|s [|s' l]];
      try discriminate.
    destruct s as [d f]. reflexivity.
  - intro Hall. apply Hnone. rewrite (filter_all_beyond depths target Hall).
    reflexivity.
Qed.

Lemma energy_degenerate_range_witness :
  energy_integral [0; 1; 2] [3; 2; 1] 0 = Value 0
  /\ energy_integral [0; 1; 2] [3; 2; 1] (-1) = Raise IndexError.
Proof.
  split.
  - apply (proj1 (energy_degenerate_range [0; 1; 2] [3; 2; 1] 0 eq_refl)).
    reflexivity.
  - apply (proj1 (proj2 (energy_degenerate_range [0; 1; 2] [3; 2; 1] (-1) eq_refl))).
    reflexivity.
Defined.

(** ** Weight Optimizer *)

Lemma argmin_from_bound (l : list Q) (best : Q) (best_idx i : nat) :
  (best_idx < i)%nat -> (argmin_from best best_idx i l < i + length l)%nat.
Proof.
  revert best best_idx i. induction l as [|x l IH]; intros best bi i H; cbn.
  - lia.
  - destruct (Qlt_bool x best).
    + specialize (IH x i (S i)). lia.
    + specialize (IH best bi (S i)). lia.
Qed.

Lemma argmin_bound (l : list Q) (i : nat) :
  argmin l = Value i -> (i < length l)%nat.
Proof.
  destruct l as [|x l]; [discriminate|]. cbn. intro H. injection H as <-.
  pose proof (argmin_from_bound l x 0 1). lia.
Qed.

Lemma index_value {A : Type} (xs : list A) (i : nat) :
  (i < length xs)%nat ->
  exists a, nth_error xs i = Some a /\ index xs i = Value a.
Proof.
  intro H. unfold index. destruct (nth_error xs i) as [a|] eqn:E.
  - exists a. split; reflexivity.
  - apply nth_error_None in E. lia.
Qed.

Lemma skipn_three (k : nat) (xs : list Q) :
  (k + 2 < length xs)%nat ->
  exists a b c rest,
    skipn k xs = a :: b :: c :: rest
    /\ nth_error xs k = Some a
    /\ nth_error xs (k + 1) = Some b
    /\ nth_error xs (k + 2) = Some c.
Proof.
  revert xs. induction k as [|k IH]; intros xs H.
  - destruct xs as [|a [|b [|c rest]]]; cbn in H; try lia.
    exists a, b, c, rest. repeat split.
  - destruct xs as [|x xs]; cbn in H; [lia|].
    destruct (IH xs) as (a & b & c & rest & E & Ha & Hb & Hc); [lia|].
    exists a, b, c, rest. cbn. repeat split; assumption.
Qed.

(** The slice around an interior index unpacks into the sample before it,
    the sample itself and the sample after it. *)
Lemma unpack3_value (xs : list Q) (i : nat) :
  (0 < i)%nat -> (i + 1 < length xs)%nat ->
  exists a b c,
    nth_error xs (i - 1) = Some a
    /\ nth_error xs i = Some b
    /\ nth_error xs (i + 1) = Some c
    /\ unpack3 xs i = Value (a, b, c).
Proof.
  intros H0 H1.
  destruct (skipn_three (i - 1) xs) as (a & b & c & rest & E & Ha & Hb & Hc); [lia|].
  replace (i - 1 + 1)%nat with i in Hb by lia.
  replace (i - 1 + 2)%nat with (i + 1)%nat in Hc by lia.
  exists a, b, c. repeat split; try assumption.
  unfold unpack3. rewrite E. reflexivity.
Qed.

Lemma npdiv_finite (x y : Q) : ~ y == 0 -> npdiv x y = Finite (x / y).
Proof. intro H. unfold npdiv. now rewrite (Qeq_bool_false _ _ H). Qed.

Lemma npdiv_zero (x y : Q) : y == 0 -> npdiv x y = NonFinite.
Proof. intro H. unfold npdiv. apply Qeq_bool_iff in H. now rewrite H. Qed.

Lemma boundary_test (weights : list Q) (i : nat) :
  i <> 0%nat -> i <> (length weights - 1)%nat ->
  (i =? 0)%nat || (i =? length weights - 1)%nat = false.
Proof.
  intros H0 Hl. apply orb_false_iff. split; apply Nat.eqb_neq; assumption.
Qed.

(** The boundary branch: the minimum sample is reported as it is. *)
Lemma select_boundary (polyfit : fit) (weights energies : list Q) (i : nat) :
  length weights = length energies ->
  argmin energies = Value i ->
  i = 0%nat \/ i = (length weights - 1)%nat ->
  exists w e,
    nth_error weights i = Some w /\ nth_error energies i = Some e
    /\ select_optimum polyfit weights energies = Value (Finite w, Finite e).
Proof.
  intros H Ha Hb. pose proof (argmin_bound _ _ Ha) as Hi.
  destruct (index_value weights i) as (w & Nw & Iw); [lia|].
  destruct (index_value energies i) as (e & Ne & Ie); [lia|].
  exists w, e. repeat split; try assumption.
  unfold select_optimum. rewrite Ha. cbn [bind].
  replace ((i =? 0)%nat || (i =? length weights - 1)%nat) with true.
  - rewrite Iw, Ie. reflexivity.
  - symmetry. apply orb_true_iff.
    destruct Hb as [-> | Hb]; [left | right]; apply Nat.eqb_eq; [reflexivity | exact Hb].
Qed.

(** The interior branch: the minimum sample and its two neighbours go to
    the fit, and vertex and value are computed from the coefficients that
    come back. *)
Lemma select_interior (polyfit : fit) (weights energies : list Q) (i : nat) :
  length weights = length energies ->
  argmin energies = Value i ->
  i <> 0%nat -> i <> (length weights - 1)%nat ->
  exists x1 x2 x3 y1 y2 y3 a b c,
    (nth_error weights (i - 1) = Some x1 /\ nth_error weights i = Some x2
     /\ nth_error weights (i + 1) = Some x3)
    /\ (nth_error energies (i - 1) = Some y1 /\ nth_error energies i = Some y2
        /\ nth_error energies (i + 1) = Some y3)
    /\ polyfit (x1, x2, x3) (y1, y2, y3) = (a, b, c)
    /\ (~ a == 0 ->
        exists w e,
          select_optimum polyfit weights energies = Value (Finite w, Finite e)
          /\ w == - b / (2 * a)
          /\ e == a * w * w + b * w + c)
    /\ (a == 0 ->
        select_optimum polyfit weights energies = Value (NonFinite, NonFinite)).
Proof.
  intros H Ha H0 Hl. pose proof (argmin_bound _ _ Ha) as Hi.
  destruct (unpack3_value weights i) as (x1 & x2 & x3 & X1 & X2 & X3 & UX); [lia|lia|].
  destruct (unpack3_value energies i) as (y1 & y2 & y3 & Y1 & Y2 & Y3 & UY); [lia|lia|].
  destruct (polyfit (x1, x2, x3) (y1, y2, y3)) as [[a b] c] eqn:F.
  exists x1, x2, x3, y1, y2, y3, a, b, c.
  split; [repeat split; assumption|]. split; [repeat split; assumption|].
  split; [exact F|].
  assert (S : select_optimum polyfit weights energies
              = Value (npdiv (- b) (2 * a), polyval (a, b, c) (npdiv (- b) (2 * a)))).
  { unfold select_optimum. rewrite Ha. cbn [bind].
    rewrite (boundary_test weights i H0 Hl), UX, UY. cbn [bind].
    rewrite F. reflexivity. }
  split.
  - intro Hnz. exists (- b / (2 * a)).
    exists (((0 * (- b / (2 * a)) + a) * (- b / (2 * a)) + b) * (- b / (2 * a)) + c).
    rewrite S, npdiv_finite by (intro E; apply Hnz; lra).
    split; [reflexivity|]. split; [reflexivity | ring].
  - intro Hz. rewrite S, npdiv_zero by (rewrite Hz; reflexivity). reflexivity.
Qed.




(** [np.argmin] returns the first index of a smallest element. *)
Lemma argmin_from_first_min (l pre : list Q) (best : Q) (best_idx : nat) :
  nth_error (pre ++ l) best_idx = Some best ->
  (best_idx < length pre)%nat ->
  (forall j x, nth_error pre j = Some x -> best <= x) ->
  (forall j x, (j < best_idx)%nat -> nth_error pre j = Some x -> best < x) ->
  exists v,
    nth_error (pre ++ l) (argmin_from best best_idx (length pre) l) = Some v
    /\ (forall j x, nth_error (pre ++ l) j = Some x -> v <= x)
    /\ (forall j x, (j < argmin_from best best_idx (length pre) l)%nat ->
                    nth_error (pre ++ l) j = Some x -> v < x).
Proof.
  revert pre best best_idx.
  induction l as [|y l IH]; intros pre best bi Hb Hlt Hle Hst.
  - cbn [argmin_from]. rewrite app_nil_r in *. exists best. auto.
  - cbn [argmin_from]. rewrite (shift_middle pre l y).
    replace (S (length pre)) with (length (pre ++ [y]))
      by (rewrite length_app; cbn; lia).
    assert (Hin : forall j x, nth_error (pre ++ [y]) j = Some x ->
                    ((j < length pre)%nat /\ nth_error pre j = Some x)
                    \/ (j = length pre /\ x = y)).
    { intros j x Hj. destruct (Nat.lt_ge_cases j (length pre)) as [L | G].
      - left. rewrite nth_error_app1 in Hj by exact L. auto.
      - right. rewrite nth_error_app2 in Hj by exact G.
        destruct (j - length pre)%nat as [|k] eqn:Ek; cbn in Hj.
        + injection Hj as <-. split; [lia | reflexivity].
        + destruct k; discriminate. }
    destruct (Qlt_bool y best) eqn:E.
    + apply Qlt_bool_iff in E. apply IH.
      * rewrite <- shift_middle.
        rewrite nth_error_app2 by lia. rewrite Nat.sub_diag. reflexivity.
      * rewrite length_app. cbn. lia.
      * intros j x Hj. destruct (Hin j x Hj) as [[_ Hp] | [_ ->]]; [|lra].
        specialize (Hle j x Hp). lra.
      * intros j x Hlj Hj. destruct (Hin j x Hj) as [[_ Hp] | [Hk _]]; [|lia].
        specialize (Hle j x Hp). lra.
    + apply Qlt_bool_false_iff in E. apply IH.
      * rewrite <- shift_middle. exact Hb.
      * rewrite length_app. cbn. lia.
      * intros j x Hj. destruct (Hin j x Hj) as [[_ Hp] | [_ ->]]; [|exact E].
        exact (Hle j x Hp).
      * intros j x Hlj Hj. destruct (Hin j x Hj) as [[_ Hp] | [Hk _]]; [|lia].
        exact (Hst j x Hlj Hp).
Qed.

Lemma argmin_first_min (l : list Q) (i : nat) :
  argmin l = Value i ->
  exists v,
    nth_error l i = Some v
    /\ (forall j x, nth_error l j = Some x -> v <= x)
    /\ (forall j x, (j < i)%nat -> nth_error l j = Some x -> v < x).
Proof.
  destruct l as [|y l]; [discriminate|]. cbn [argmin]. intro H. injection H as <-.
  apply (argmin_from_first_min l [y] y 0).
  - reflexivity.
  - cbn. lia.
  - intros [|[|j]] x Hj; cbn in Hj; try discriminate. injection Hj as <-. lra.
  - intros j x Hj. lia.
Qed.

(** ** Depth Sweep Driver *)

Lemma sweep_count (m : positive) :
  length (sweep_depths (inject_Z (Zpos m))) = Pos.to_nat (2 * m).
Proof.
  unfold sweep_depths, arange. rewrite length_map, length_seq.
  assert (E : (inject_Z (Zpos m) + 1 - 1) / 0.5 == inject_Z (Zpos (2 * m))).
  { assert (I : inject_Z (Zpos (2 * m)) == 2 * inject_Z (Zpos m))
      by (change (Zpos (2 * m)) with (2 * Zpos m)%Z; rewrite inject_Z_mult; reflexivity).
    rewrite I. field. }
  rewrite (Qceiling_comp _ _ E), Qceiling_Z. reflexivity.
Qed.

(** C6, the code at integer maximum depths: the sweep has 2 * max_depth
    depths and one of them is max_depth + 0.5, beyond the maximum. *)
Theorem depth_sweep_overshoots (m : positive) :
  length (sweep_depths (inject_Z (Zpos m))) = Pos.to_nat (2 * m)
  /\ exists d,
       In d (sweep_depths (inject_Z (Zpos m)))
       /\ d == inject_Z (Zpos m) + 0.5
       /\ inject_Z (Zpos m) < d.
Proof.
  split; [apply sweep_count|].
  exists (1 + inject_Z (Z.of_nat (Pos.to_nat (2 * m) - 1)) * 0.5).
  assert (V : 1 + inject_Z (Z.of_nat (Pos.to_nat (2 * m) - 1)) * 0.5
              == inject_Z (Zpos m) + 0.5).
  { replace (Z.of_nat (Pos.to_nat (2 * m) - 1)) with (2 * Zpos m - 1)%Z by lia.
    unfold Zminus. rewrite inject_Z_plus, inject_Z_mult.
    change (inject_Z (- (1))) with (- (1)). change (inject_Z 2) with 2. field. }
  split; [|split; [exact V | rewrite V; lra]].
  pose proof (sweep_count m) as L.
  unfold sweep_depths, arange in *. rewrite length_map, length_seq in L.
  rewrite L.
  apply (in_map (fun i => 1 + inject_Z (Z.of_nat i) * 0.5)).
  apply in_seq. lia.
Qed.

(** The default sweep: 100 depths, the last one 50.5 m. *)
Example depth_sweep_50 :
  length (sweep_depths 50) = 100%nat
  /\ (exists d, nth_error (sweep_depths 50) 99 = Some d /\ d == 50.5)
  /\ length (filter (fun d => Qle_bool d 50) (sweep_depths 50)) = 99%nat.
Proof.
  split; [vm_compute; reflexivity|]. split; [|vm_compute; reflexivity].
  eexists. split; [vm_compute; reflexivity | vm_compute; reflexivity].
Qed.

(** Whenever the driver returns, it returns one sequence per lung condition,
    as long as the sweep. *)
Lemma optimal_weights_length (polyfit : fit) (p : params) (max_depth : Q)
      (r : list (string * list number)) :
  optimal_weight_vs_depth polyfit p max_depth = Value r ->
  map fst r = lung_conditions
  /\ Forall (fun cw => length (snd cw) = length (sweep_depths max_depth)) r.
Proof.
  unfold optimal_weight_vs_depth. intro H.
  destruct (mapM (getitem (lung_volumes p)) lung_conditions); [|discriminate].
  cbn [bind] in H.
  destruct (mapM (fun depth => energy_vs_weight polyfit p depth None)
                 (sweep_depths max_depth)) as [per_depth|] eqn:E; [|discriminate].
  cbn [bind] in H. apply mapM_length in E. unfold lung_conditions in H.
  cbn [mapM] in H.
  repeat match type of H with
  | context [mapM ?f per_depth] =>
      let ws := fresh "ws" in let Ew := fresh "Ew" in
      destruct (mapM f per_depth) as [ws|] eqn:Ew;
      [apply mapM_length in Ew | discriminate]; cbn [bind] in H
  end.
  injection H as <-. split; [reflexivity|].
  repeat constructor; cbn [snd]; congruence.
Qed.

(** * Further properties of the code *)

(** ** The outcome monad over lists *)

Lemma mapM_Forall2 {A B : Type} (f : A -> result B) (l : list A) (r : list B) :
  mapM f l = Value r -> Forall2 (fun a b => f a = Value b) l r.
Proof.
  revert r. induction l as [|a l IH]; intros r H; cbn in H.
  - injection H as <-. constructor.
  - destruct (f a) as [b|e] eqn:Ea; cbn in H; [|discriminate].
    destruct (mapM f l) as [bs|e]; cbn in H; [|discriminate].
    injection H as <-. constructor; [exact Ea | apply IH; reflexivity].
Qed.

Lemma mapM_total {A B : Type} (f : A -> result B) (l : list A) :
  (forall a, In a l -> exists b, f a = Value b) ->
  exists r, mapM f l = Value r.
Proof.
  induction l as [|a l IH]; intro H; cbn.
  - exists []. reflexivity.
  - destruct (H a (or_introl eq_refl)) as [b Eb].
    destruct IH as [bs Ebs]; [intros a' Ha'; apply H; right; exact Ha'|].
    exists (b :: bs). rewrite Eb, Ebs. reflexivity.
Qed.

Lemma mapM_ext {A B : Type} (f g : A -> result B) (l : list A) :
  (forall a, In a l -> f a = g a) -> mapM f l = mapM g l.
Proof.
  induction l as [|a l IH]; intro H; cbn; [reflexivity|].
  rewrite (H a (or_introl eq_refl)).
  rewrite IH by (intros a' Ha'; apply H; right; exact Ha'). reflexivity.
Qed.

(** The first failure of a loop is the loop's failure. *)
Lemma mapM_raise {A B : Type} (f : A -> result B) (pre post : list A)
      (a : A) (e : exn) :
  (forall x, In x pre -> exists b, f x = Value b) ->
  f a = Raise e ->
  mapM f (pre ++ a :: post) = Raise e.
Proof.
  induction pre as [|x pre IH]; intros Hpre Ha; cbn.
  - rewrite Ha. reflexivity.
  - destruct (Hpre x (or_introl eq_refl)) as [b Eb]. rewrite Eb. cbn [bind].
    rewrite IH; [reflexivity | | exact Ha].
    intros x' Hx'. apply Hpre. right. exact Hx'.
Qed.

Lemma getitem_raises_KeyError {A : Type} (d : list (string * A)) (k : string) (e : exn) :
  getitem d k = Raise e -> e = KeyError.
Proof.
  induction d as [|[k' v] d IH]; cbn; intro H.
  - injection H as <-. reflexivity.
  - destruct (String.eqb k' k); [discriminate | exact (IH H)].
Qed.

(** ** The depth grid *)

Lemma linspace_length (start stop : Q) (num : nat) :
  length (linspace start stop num) = num.
Proof. unfold linspace. rewrite length_map, length_seq. reflexivity. Qed.

Lemma linspace_nth (start stop : Q) (num i : nat) :
  (i < num)%nat ->
  nth_error (linspace start stop num) i
  = Some (start + inject_Z (Z.of_nat i)
                  * ((stop - start) / inject_Z (Z.of_nat (num - 1)))).
Proof.
  intro H. unfold linspace.
  rewrite nth_error_map, nth_error_seq.
  destruct (Nat.ltb_spec i num) as [_|G]; [reflexivity | lia].
Qed.

(** ** Force Profile Generator: outcomes *)

(** The loop body never fails on a record with a density and a wetsuit
    density other than zero, at any depth. *)
Lemma net_force_defined (p : params) (rho lv d : Q) :
  ~ wetsuit_density p == 0 -> seawater_density p = Some rho ->
  exists v, net_force_kgf p lv d = Value v.
Proof.
  intros Hw Hr. destruct (Qlt_le_dec d 0) as [L | G].
  - apply Qlt_bool_iff in L. unfold net_force_kgf. rewrite L. eexists. reflexivity.
  - destruct (net_force_submerged p rho lv d G Hw Hr) as (v & E & _).
    exists v. exact E.
Qed.

(** What a successful call returned. *)
Lemma plot_inversion (p : params) (depths : list Q)
      (curves : list (string * list Q)) :
  snd (plot_net_force_kgf p) = Value (depths, curves) ->
  exists y0,
    nth_error (y_limits p) 0 = Some y0
    /\ depths = linspace 0 y0 500
    /\ (forall k, In k lung_conditions ->
                  exists v, getitem (lung_volumes p) k = Value v)
    /\ Forall2 (fun cl c =>
                  fst c = fst cl
                  /\ Forall2 (fun d f =>
                                net_force_kgf (fst (plot_net_force_kgf p)) (snd cl) d
                                = Value f)
                             depths (snd c))
               (lung_volumes p) curves.
Proof.
  unfold plot_net_force_kgf. cbv zeta.
  cbn [snd fst y_limits lung_volumes set_seawater_density].
  unfold index. destruct (nth_error (y_limits p) 0) as [y0|]; [|discriminate].
  cbn [bind]. intro H. exists y0. split; [reflexivity|].
  destruct (mapM (getitem (lung_volumes p)) lung_conditions) as [vs|] eqn:K;
    [|discriminate].
  cbn [bind] in H.
  match type of H with
  | context [mapM ?f (lung_volumes p)] =>
      destruct (mapM f (lung_volumes p)) as [cs|] eqn:C; [|discriminate]
  end.
  cbn [bind] in H. injection H as <- <-. split; [reflexivity|]. split.
  - intros k Hk. apply mapM_Forall2 in K.
    clear C. revert vs K. generalize dependent lung_conditions.
    intros ks Hk vs K. induction K as [|k' v ks vs Hkv K IH]; [contradiction|].
    destruct Hk as [<- | Hk]; [exists v; exact Hkv | exact (IH Hk)].
  - apply mapM_Forall2 in C. clear K.
    induction C as [|cl cf lvs cs Hc C IH]; constructor; [|exact IH].
    destruct cl as [c lv]. destruct cf as [c' nf].
    cbn [fst snd]. cbn beta iota in Hc.
    match type of Hc with
    | context [mapM ?f ?l] => destruct (mapM f l) as [nfs|] eqn:N; [|discriminate]
    end.
    cbn [bind] in Hc. injection Hc as <- <-. split; [reflexivity|].
    apply mapM_Forall2 in N. exact N.
Qed.

Lemma Forall2_keys {A B : Type} (P : A -> B -> Prop)
      (l : list (string * A)) (r : list (string * B)) :
  Forall2 (fun cl c => fst c = fst cl /\ P (snd cl) (snd c)) l r ->
  map fst r = map fst l.
Proof.
  induction 1 as [|cl c l r [Hk _] _ IH]; cbn; [reflexivity|].
  rewrite Hk, IH. reflexivity.
Qed.

Lemma getitem_Forall2 {A B : Type} (P : A -> B -> Prop)
      (l : list (string * A)) (r : list (string * B)) (k : string) :
  Forall2 (fun cl c => fst c = fst cl /\ P (snd cl) (snd c)) l r ->
  match getitem l k with
  | Value v => exists w, getitem r k = Value w /\ P v w
  | Raise _ => getitem r k = Raise KeyError
  end.
Proof.
  induction 1 as [|[k1 v] [k2 w] l r [Hk HP] _ IH]; cbn; [reflexivity|].
  cbn in Hk, HP. subst k2. destruct (String.eqb k1 k); [|exact IH].
  exists w. split; [reflexivity | exact HP].
Qed.

Lemma mapM_getitem_missing {A : Type} (d : list (string * A))
      (ks : list string) (k : string) :
  In k ks -> getitem d k = Raise KeyError ->
  mapM (getitem d) ks = Raise KeyError.
Proof.
  induction ks as [|k0 ks IH]; intros Hin Hk; [contradiction|]. cbn.
  destruct (getitem d k0) as [v|e] eqn:E0.
  - cbn [bind]. destruct Hin as [-> | Hin]; [congruence|].
    rewrite (IH Hin Hk). reflexivity.
  - rewrite (getitem_raises_KeyError _ _ _ E0). reflexivity.
Qed.

(** The grid always starts at the surface. *)
Lemma linspace_head (y0 : Q) :
  exists d0 tl, linspace 0 y0 500 = d0 :: tl /\ d0 == 0.
Proof.
  unfold linspace. change 500%nat with (S 499) at 2.
  rewrite <- cons_seq. cbn [map].
  eexists. eexists. split; [reflexivity|].
  cbn [Z.of_nat]. ring.
Qed.

Lemma plot_succeeds (p : params) :
  y_limits p <> [] ->
  ~ wetsuit_density p == 0 ->
  (forall k, In k lung_conditions ->
             exists v, getitem (lung_volumes p) k = Value v) ->
  exists depths curves,
    snd (plot_net_force_kgf p) = Value (depths, curves)
    /\ length depths = 500%nat
    /\ map fst curves = map fst (lung_volumes p)
    /\ Forall (fun c => length (snd c) = 500%nat) curves
    /\ Forall2 (fun cl c =>
                  Forall2 (fun d f =>
                             net_force_kgf (fst (plot_net_force_kgf p)) (snd cl) d
                             = Value f)
                          depths (snd c))
               (lung_volumes p) curves.
Proof.
  intros Hy Hw Hk.
  assert (S : exists dc, snd (plot_net_force_kgf p) = Value dc).
  { unfold plot_net_force_kgf. cbv zeta.
    cbn [snd fst y_limits lung_volumes set_seawater_density].
    destruct (y_limits p) as [|y0 rest]; [contradiction|].
    cbn [index nth_error bind].
    destruct (mapM_total (getitem (lung_volumes p)) lung_conditions Hk) as [vs Evs].
    rewrite Evs. cbn [bind].
    match goal with
    | |- context [mapM ?f (lung_volumes p)] =>
        destruct (mapM_total f (lung_volumes p)) as [cs Ecs]
    end.
    - intros [c lv] _.
      destruct (mapM_total
                  (net_force_kgf
                     (set_seawater_density p
                        (get_salinity_and_density (water_type p) (temperature p)))
                     lv)
                  (linspace 0 y0 500)) as [nf Enf].
      + intros d _.
        apply (net_force_defined _
                 (get_salinity_and_density (water_type p) (temperature p)));
          [exact Hw | reflexivity].
      + exists (c, nf). rewrite Enf. reflexivity.
    - rewrite Ecs. cbn [bind]. eexists. reflexivity. }
  destruct S as [[depths curves] E]. exists depths, curves.
  split; [exact E|].
  destruct (plot_inversion p depths curves E) as (y0 & _ & -> & _ & F).
  split; [apply linspace_length|]. split.
  { exact (Forall2_keys
             (fun lv nf =>
                Forall2 (fun d f =>
                           net_force_kgf (fst (plot_net_force_kgf p)) lv d = Value f)
                        (linspace 0 y0 500) nf) _ _ F). }
  split.
  - clear E Hk. induction F as [|cl c l r [_ HF] _ IH]; [constructor|].
    constructor; [|exact IH].
    rewrite <- (Forall2_length HF). apply linspace_length.
  - clear E Hk. induction F as [|cl c l r [_ HF] _ IH]; [constructor|].
    constructor; [exact HF | exact IH].
Qed.

(** The call succeeds on every record that has a first depth limit, the
    three lung conditions and a wetsuit density other than zero.  It returns
    500 depths and, for every entry of the lung-volume dictionary, in its
    order, one curve of 500 forces: the loop body at each grid depth. *)
Theorem force_profile_succeeds (p : params) :
  y_limits p <> [] ->
  ~ wetsuit_density p == 0 ->
  (forall k, In k lung_conditions ->
             exists v, getitem (lung_volumes p) k = Value v) ->
  exists depths curves,
    snd (plot_net_force_kgf p) = Value (depths, curves)
    /\ length depths = 500%nat
    /\ map fst curves = map fst (lung_volumes p)
    /\ Forall (fun c => length (snd c) = 500%nat) curves
    /\ Forall2 (fun cl c =>
                  Forall2 (fun d f =>
                             net_force_kgf (fst (plot_net_force_kgf p)) (snd cl) d
                             = Value f)
                          depths (snd c))
               (lung_volumes p) curves.
Proof. exact (plot_succeeds p). Qed.

Lemma force_profile_succeeds_witness :
  exists depths curves,
    snd (plot_net_force_kgf example_params) = Value (depths, curves)
    /\ length depths = 500%nat
    /\ map fst curves = map fst (lung_volumes example_params)
    /\ Forall (fun c => length (snd c) = 500%nat) curves
    /\ Forall2 (fun cl c =>
                  Forall2 (fun d f =>
                             net_force_kgf (fst (plot_net_force_kgf example_params))
                               (snd cl) d
                             = Value f)
                          depths (snd c))
               (lung_volumes example_params) curves.
Proof.
  apply (force_profile_succeeds example_params).
  - discriminate.
  - vm_compute. discriminate.
  - intros k [<- | [<- | [<- | []]]]; eexists; reflexivity.
Defined.

(** Without a first depth limit the grid cannot be built. *)
Theorem force_profile_no_depth_limit (p : params) :
  y_limits p = [] ->
  snd (plot_net_force_kgf p) = Raise IndexError.
Proof.
  intro H. unfold plot_net_force_kgf. cbv zeta.
  cbn [snd fst y_limits set_seawater_density]. rewrite H. reflexivity.
Qed.

Lemma force_profile_no_depth_limit_witness :
  snd (plot_net_force_kgf
         (mkParams 70 1.84 0.20 [("full_lung", 6.5)]%string 1500 1.24 0.24 150 0
            "sea" 22 1.6 [] [] None))
  = Raise IndexError.
Proof.
  apply force_profile_no_depth_limit. reflexivity.
Defined.

(** The styles are built whether or not anything is plotted: a record that
    lacks one of the three lung conditions fails with KeyError before any
    force is computed. *)
Theorem force_profile_missing_condition (p : params) (k : string) :
  y_limits p <> [] ->
  In k lung_conditions ->
  getitem (lung_volumes p) k = Raise KeyError ->
  snd (plot_net_force_kgf p) = Raise KeyError.
Proof.
  intros Hy Hin Hk. unfold plot_net_force_kgf. cbv zeta.
  cbn [snd fst y_limits lung_volumes set_seawater_density].
  destruct (y_limits p) as [|y0 rest]; [contradiction|].
  cbn [index nth_error bind].
  rewrite (mapM_getitem_missing _ _ _ Hin Hk). reflexivity.
Qed.

Lemma force_profile_missing_condition_witness :
  snd (plot_net_force_kgf
         (mkParams 70 1.84 0.20 [("full_lung", 6.5); ("empty_lung", 1.5)]%string
            1500 1.24 0.24 150 0 "sea" 22 1.6 [-4; 8] [50; -10] None))
  = Raise KeyError.
Proof.
  apply (force_profile_missing_condition _ "medium_lung").
  - discriminate.
  - right. left. reflexivity.
  - reflexivity.
Defined.

(** The grid starts at depth 0, which is submerged: with a wetsuit density
    of zero every call that reaches the loop fails on its first sample. *)
Theorem force_profile_zero_wetsuit_density (p : params) :
  y_limits p <> [] ->
  (forall k, In k lung_conditions ->
             exists v, getitem (lung_volumes p) k = Value v) ->
  wetsuit_density p == 0 ->
  snd (plot_net_force_kgf p) = Raise ZeroDivisionError.
Proof.
  intros Hy Hk Hw. unfold plot_net_force_kgf. cbv zeta.
  cbn [snd fst y_limits lung_volumes set_seawater_density].
  destruct (y_limits p) as [|y0 rest]; [contradiction|].
  cbn [index nth_error bind].
  destruct (mapM_total (getitem (lung_volumes p)) lung_conditions Hk) as [vs Evs].
  rewrite Evs. cbn [bind].
  destruct (lung_volumes p) as [|[c lv] lvs] eqn:El.
  { destruct (Hk "full_lung"%string (or_introl eq_refl)) as [v Ev]. discriminate. }
  destruct (linspace_head y0) as (d0 & tl & -> & Hd0).
  cbn [mapM].
  rewrite net_force_zero_wetsuit_density; [reflexivity | lra | exact Hw].
Qed.

Lemma force_profile_zero_wetsuit_density_witness :
  snd (plot_net_force_kgf
         (mkParams 70 1.84 0.20
            [("full_lung", 6.5); ("medium_lung", 4.0); ("empty_lung", 1.5)]%string
            1500 1.24 0 150 0 "sea" 22 1.6 [-4; 8] [50; -10] None))
  = Raise ZeroDivisionError.
Proof.
  apply force_profile_zero_wetsuit_density.
  - discriminate.
  - intros k [<- | [<- | [<- | []]]]; eexists; reflexivity.
  - reflexivity.
Defined.

(** Whatever density the record held before is ignored and overwritten; in
    particular a second call returns what the first returned and leaves the
    record as the first left it. *)
Theorem force_profile_ignores_old_density (p : params) (v : Q) :
  plot_net_force_kgf (set_seawater_density p v) = plot_net_force_kgf p
  /\ plot_net_force_kgf (fst (plot_net_force_kgf p)) = plot_net_force_kgf p.
Proof. split; reflexivity. Qed.

Lemma grid_of_successful_call (p : params) (depths : list Q)
        (curves : list (string * list Q)) (y0 : Q) :
  snd (plot_net_force_kgf p) = Value (depths, curves) ->
  nth_error (y_limits p) 0 = Some y0 ->
  0 < y0 ->
  (exists d0, nth_error depths 0 = Some d0 /\ d0 == 0)
  /\ (exists dl, nth_error depths 499 = Some dl /\ dl == y0)
  /\ (forall i x y, nth_error depths i = Some x ->
                    nth_error depths (S i) = Some y -> x < y)
  /\ (forall d, In d depths -> 0 <= d /\ d <= y0).
Proof.
  intros E Hy Hpos.
  destruct (plot_inversion p depths curves E) as (y0' & Hy' & -> & _).
  rewrite Hy in Hy'. injection Hy' as <-.
  assert (N : forall i, (i < 500)%nat ->
                nth_error (linspace 0 y0 500) i
                = Some (0 + inject_Z (Z.of_nat i) * ((y0 - 0) / 499))).
  { intros i Hi. rewrite (linspace_nth 0 y0 500 i Hi). reflexivity. }
  assert (Hs : 0 < (y0 - 0) / 499).
  { assert (Es : (y0 - 0) / 499 == y0 * (1 # 499)) by field. rewrite Es. lra. }
  set (s := (y0 - 0) / 499) in *.
  assert (Bound : forall i, nth_error (linspace 0 y0 500) i <> None -> (i < 500)%nat).
  { intros i Hi. apply nth_error_Some in Hi. rewrite linspace_length in Hi. exact Hi. }
  repeat split.
  - eexists. split; [apply N; lia|]. cbn [Z.of_nat]. ring.
  - eexists. split; [apply N; lia|].
    change (inject_Z (Z.of_nat 499)) with 499. unfold s. field.
  - intros i x y Hx Hy1.
    assert (Hi : (S i < 500)%nat) by (apply Bound; congruence).
    rewrite N in Hx by lia. rewrite N in Hy1 by lia.
    injection Hx as <-. injection Hy1 as <-.
    change (Z.pos (Pos.of_succ_nat i)) with (Z.of_nat (S i)).
    rewrite Nat2Z.inj_succ. unfold Z.succ. rewrite inject_Z_plus.
    change (inject_Z 1) with 1. lra.
  - destruct (In_nth_error _ _ H) as [i Hi].
    assert (Hlt : (i < 500)%nat) by (apply Bound; congruence).
    rewrite N in Hi by lia. injection Hi as <-.
    assert (0 <= inject_Z (Z.of_nat i)).
    { change 0 with (inject_Z 0). rewrite <- Zle_Qle. lia. }
    assert (0 <= inject_Z (Z.of_nat i) * s) by (apply Qmult_le_0_compat; lra).
    lra.
  - destruct (In_nth_error _ _ H) as [i Hi].
    assert (Hlt : (i < 500)%nat) by (apply Bound; congruence).
    rewrite N in Hi by lia. injection Hi as <-.
    assert (Hle : inject_Z (Z.of_nat i) <= 499).
    { change 499 with (inject_Z 499). rewrite <- Zle_Qle. lia. }
    assert (Es : y0 == 499 * s) by (unfold s; field).
    assert (0 <= (499 - inject_Z (Z.of_nat i)) * s)
      by (apply Qmult_le_0_compat; lra).
    lra.
Qed.

(** For a positive first depth limit the grid a call returns runs from 0 to
    that limit in strictly increasing steps. *)
Theorem depth_grid_increasing (p : params) (y0 : Q) :
  nth_error (y_limits p) 0 = Some y0 ->
  0 < y0 ->
  ~ wetsuit_density p == 0 ->
  (forall k, In k lung_conditions ->
             exists v, getitem (lung_volumes p) k = Value v) ->
  exists depths curves,
    snd (plot_net_force_kgf p) = Value (depths, curves)
    /\ (exists d0, nth_error depths 0 = Some d0 /\ d0 == 0)
    /\ (exists dl, nth_error depths 499 = Some dl /\ dl == y0)
    /\ (forall i x y, nth_error depths i = Some x ->
                      nth_error depths (S i) = Some y -> x < y)
    /\ (forall d, In d depths -> 0 <= d /\ d <= y0).
Proof.
  intros Hy Hpos Hw Hk.
  destruct (plot_succeeds p) as (depths & curves & E & _);
    [intro Z; rewrite Z in Hy; discriminate | exact Hw | exact Hk |].
  exists depths, curves. split; [exact E|].
  exact (grid_of_successful_call p depths curves y0 E Hy Hpos).
Qed.

Lemma depth_grid_increasing_witness :
  exists depths curves,
    snd (plot_net_force_kgf example_params) = Value (depths, curves)
    /\ (exists d0, nth_error depths 0 = Some d0 /\ d0 == 0)
    /\ (exists dl, nth_error depths 499 = Some dl /\ dl == 50)
    /\ (forall i x y, nth_error depths i = Some x ->
                      nth_error depths (S i) = Some y -> x < y)
    /\ (forall d, In d depths -> 0 <= d /\ d <= 50).
Proof.
  apply (depth_grid_increasing example_params 50).
  - reflexivity.
  - reflexivity.
  - vm_compute. discriminate.
  - intros k [<- | [<- | [<- | []]]]; eexists; reflexivity.
Defined.

(** ** Energy Integrator: outcomes *)

Lemma energy_value_nonneg (depths forces : list Q) (target : Q) :
  length depths = length forces ->
  Exists (fun d => d <= target) depths ->
  exists e, energy_integral depths forces target = Value e /\ 0 <= e.
Proof.
  intros H Hex. unfold energy_integral.
  rewrite (cumulative_energy_value depths forces target H
             (restrict_nonempty depths forces target H Hex)).
  cbn [bind].
  pose proof (increments_nonneg (Spec.restrict depths forces target)) as N.
  set (incs := Spec.increments_wh (Spec.restrict depths forces target)) in *.
  exists (last (0 :: cumsum incs) 0).
  split; [apply index_last_last; discriminate|].
  destruct N as [|x l Hx Hl]; [cbn; lra|].
  destruct (cumsum_from_monotone x l Hl) as [_ L]. cbn [cumsum].
  change (last (0 :: x :: cumsum_from x l) 0) with (last (x :: cumsum_from x l) 0).
  rewrite (last_indep_nonempty (x :: cumsum_from x l) 0 x) by discriminate.
  lra.
Qed.

(** The integrator reads the curve only through its samples within range. *)
Lemma energy_integral_by_restrict (d1 f1 d2 f2 : list Q) (target : Q) :
  length d1 = length f1 -> length d2 = length f2 ->
  Spec.restrict d1 f1 target = Spec.restrict d2 f2 target ->
  energy_integral d1 f1 target = energy_integral d2 f2 target.
Proof.
  intros H1 H2 E. unfold energy_integral.
  destruct (Spec.restrict d1 f1 target) as [|s l] eqn:R1.
  - rewrite (cumulative_energy_empty d1 f1 target H1 R1).
    rewrite (cumulative_energy_empty d2 f2 target H2 (eq_sym E)). reflexivity.
  - rewrite (cumulative_energy_value d1 f1 target H1) by (rewrite R1; discriminate).
    rewrite (cumulative_energy_value d2 f2 target H2) by (rewrite <- E; discriminate).
    rewrite R1, <- E. reflexivity.
Qed.

Lemma combine_app_eq {A B : Type} (l1 l2 : list A) (r1 r2 : list B) :
  length l1 = length r1 ->
  combine (l1 ++ l2) (r1 ++ r2) = combine l1 r1 ++ combine l2 r2.
Proof.
  revert r1. induction l1 as [|a l1 IH]; intros [|b r1] H; try discriminate;
    [reflexivity|].
  cbn. f_equal. apply IH. now injection H.
Qed.

(** Samples deeper than the target do not count: a curve extended by grid
    points beyond the target integrates to the same outcome. *)
Theorem energy_ignores_deeper_samples
        (depths forces deeper deeper_forces : list Q) (target : Q) :
  length depths = length forces ->
  length deeper = length deeper_forces ->
  (forall d, In d deeper -> target < d) ->
  energy_integral (depths ++ deeper) (forces ++ deeper_forces) target
  = energy_integral depths forces target.
Proof.
  intros H1 H2 Hall. apply energy_integral_by_restrict.
  - rewrite !length_app. congruence.
  - exact H1.
  - unfold Spec.restrict. rewrite combine_app_eq by exact H1.
    rewrite filter_app.
    replace (filter (fun s => Qle_bool (fst s) target) (combine deeper deeper_forces))
      with (@nil (Q * Q)); [apply app_nil_r|].
    symmetry. clear H1. revert deeper_forces H2.
    induction deeper as [|d deeper IH]; intros [|f fs] H2; try discriminate;
      [reflexivity|].
    cbn [combine filter fst].
    destruct (Qle_bool d target) eqn:E.
    + apply Qle_bool_iff in E. specialize (Hall d (or_introl eq_refl)). lra.
    + apply IH; [intros d' Hd'; apply Hall; right; exact Hd' | now injection H2].
Qed.

Lemma energy_ignores_deeper_samples_witness :
  energy_integral ([0; 1; 2] ++ [3; 4]) ([1; -1; 2] ++ [-2; 5]) 2
  = energy_integral [0; 1; 2] [1; -1; 2] 2.
Proof.
  apply energy_ignores_deeper_samples.
  - reflexivity.
  - reflexivity.
  - intros d [<- | [<- | []]]; reflexivity.
Defined.

Lemma energy_use_snd (p : params) (depth : Q) (lung_condition : string) :
  snd (energy_use p depth lung_condition)
  = (dc <- snd (plot_net_force_kgf p) ;;
     net_forces <- getitem (snd dc) lung_condition ;;
     energy_integral (fst dc) net_forces depth).
Proof.
  unfold energy_use, plot_net_force_kgf. cbv zeta. cbn [snd].
  match goal with
  | |- bind ?m _ = bind ?m _ => destruct m as [[ds cs]|e]; reflexivity
  end.
Qed.

Lemma energy_use_value (p : params) (depth : Q) (lung_condition : string) (lv : Q) :
  y_limits p <> [] ->
  ~ wetsuit_density p == 0 ->
  (forall k, In k lung_conditions ->
             exists v, getitem (lung_volumes p) k = Value v) ->
  getitem (lung_volumes p) lung_condition = Value lv ->
  0 <= depth ->
  exists e, snd (energy_use p depth lung_condition) = Value e /\ 0 <= e.
Proof.
  intros Hy Hw Hk Hlc Hd. rewrite energy_use_snd.
  destruct (plot_succeeds p Hy Hw Hk) as (depths & curves & E & _).
  rewrite E. cbn [bind fst snd].
  destruct (plot_inversion p depths curves E) as (y0 & _ & -> & _ & F).
  pose proof (getitem_Forall2
                (fun lv nf =>
                   Forall2 (fun d f =>
                              net_force_kgf (fst (plot_net_force_kgf p)) lv d = Value f)
                           (linspace 0 y0 500) nf)
                _ _ lung_condition F) as G.
  rewrite Hlc in G. destruct G as (nf & Enf & Fnf). rewrite Enf. cbn [bind].
  apply energy_value_nonneg.
  - exact (Forall2_length Fnf).
  - destruct (linspace_head y0) as (d0 & tl & -> & Hd0).
    apply Exists_cons_hd. lra.
Qed.

(** On a record the profile accepts, for a lung condition of the record and
    a target depth that is not negative, [energy_use] returns an energy, and
    it is not negative: the grid starts at 0, so the range is never empty. *)
Theorem energy_use_succeeds (p : params) (depth : Q) (lung_condition : string)
        (lv : Q) :
  y_limits p <> [] ->
  ~ wetsuit_density p == 0 ->
  (forall k, In k lung_conditions ->
             exists v, getitem (lung_volumes p) k = Value v) ->
  getitem (lung_volumes p) lung_condition = Value lv ->
  0 <= depth ->
  exists e, snd (energy_use p depth lung_condition) = Value e /\ 0 <= e.
Proof. exact (energy_use_value p depth lung_condition lv). Qed.

Lemma energy_use_succeeds_witness :
  exists e, snd (energy_use example_params 30 "medium_lung") = Value e /\ 0 <= e.
Proof.
  apply (energy_use_succeeds example_params 30 "medium_lung" 4.0).
  - discriminate.
  - vm_compute. discriminate.
  - intros k [<- | [<- | [<- | []]]]; eexists; reflexivity.
  - reflexivity.
  - vm_compute. discriminate.
Defined.

(** A lung condition the record does not list is a KeyError, raised after
    the whole profile has been computed. *)
Theorem energy_use_unknown_condition (p : params) (depth : Q)
        (lung_condition : string) :
  y_limits p <> [] ->
  ~ wetsuit_density p == 0 ->
  (forall k, In k lung_conditions ->
             exists v, getitem (lung_volumes p) k = Value v) ->
  getitem (lung_volumes p) lung_condition = Raise KeyError ->
  snd (energy_use p depth lung_condition) = Raise KeyError.
Proof.
  intros Hy Hw Hk Hlc. rewrite energy_use_snd.
  destruct (plot_succeeds p Hy Hw Hk) as (depths & curves & E & _).
  rewrite E. cbn [bind fst snd].
  destruct (plot_inversion p depths curves E) as (y0 & _ & -> & _ & F).
  pose proof (getitem_Forall2
                (fun lv nf =>
                   Forall2 (fun d f =>
                              net_force_kgf (fst (plot_net_force_kgf p)) lv d = Value f)
                           (linspace 0 y0 500) nf)
                _ _ lung_condition F) as G.
  rewrite Hlc in G. rewrite G. reflexivity.
Qed.

Lemma energy_use_unknown_condition_witness :
  snd (energy_use example_params 30 "half_lung") = Raise KeyError.
Proof.
  apply energy_use_unknown_condition.
  - discriminate.
  - vm_compute. discriminate.
  - intros k [<- | [<- | [<- | []]]]; eexists; reflexivity.
  - reflexivity.
Defined.

(** ** Weight Optimizer: outcomes *)

(** An empty list of candidate weights is a ValueError (the argmin of an
    empty array), on every record and at every depth. *)
Theorem energy_vs_weight_no_candidates (polyfit : fit) (p : params) (depth : Q) :
  energy_vs_weight polyfit p depth (Some []) = Raise ValueError.
Proof. reflexivity. Qed.

(** The lead weight and the density the caller's record holds are not read:
    every probe overrides the one and recomputes the other. *)
Theorem energy_vs_weight_ignores_lead (polyfit : fit) (p : params)
        (depth w v : Q) (weight_list : option (list Q)) :
  energy_vs_weight polyfit (set_lead_weight p w) depth weight_list
  = energy_vs_weight polyfit p depth weight_list
  /\ energy_vs_weight polyfit (set_seawater_density p v) depth weight_list
     = energy_vs_weight polyfit p depth weight_list.
Proof. split; reflexivity. Qed.

Lemma mapM_total_rel {A B : Type} (f : A -> result B) (P : A -> B -> Prop)
      (l : list A) :
  (forall a, In a l -> exists b, f a = Value b /\ P a b) ->
  exists r, mapM f l = Value r /\ Forall2 P l r.
Proof.
  induction l as [|a l IH]; intro H; cbn.
  - exists []. split; [reflexivity | constructor].
  - destruct (H a (or_introl eq_refl)) as (b & Eb & Pb).
    destruct IH as (bs & Ebs & Pbs); [intros a' Ha'; apply H; right; exact Ha'|].
    exists (b :: bs). rewrite Eb, Ebs. split; [reflexivity | constructor; assumption].
Qed.

Lemma arange_nth (start stop step : Q) (j : nat) (x : Q) :
  nth_error (arange start stop step) j = Some x ->
  x = start + inject_Z (Z.of_nat j) * step.
Proof.
  unfold arange. rewrite nth_error_map, nth_error_seq.
  destruct (j <? _)%nat; cbn; [|discriminate].
  intro H. injection H as <-. reflexivity.
Qed.

Lemma arange_increasing (start stop step : Q) :
  0 < step ->
  forall j x y, nth_error (arange start stop step) j = Some x ->
                nth_error (arange start stop step) (j + 1) = Some y -> x < y.
Proof.
  intros Hs j x y Hx Hy.
  apply arange_nth in Hx. apply arange_nth in Hy. subst x y.
  replace (j + 1)%nat with (S j) by lia.
  rewrite Nat2Z.inj_succ. unfold Z.succ. rewrite inject_Z_plus.
  change (inject_Z 1) with 1. lra.
Qed.

Lemma sweep_depths_nonneg (max_depth d : Q) :
  In d (sweep_depths max_depth) -> 0 <= d.
Proof.
  intro H. destruct (In_nth_error _ _ H) as [i Hi].
  apply arange_nth in Hi. subst d.
  assert (0 <= inject_Z (Z.of_nat i)).
  { change 0 with (inject_Z 0). rewrite <- Zle_Qle. lia. }
  assert (0 <= inject_Z (Z.of_nat i) * 0.5) by (apply Qmult_le_0_compat; lra).
  lra.
Qed.

(** On a non-empty sweep the selection never fails, whatever the fit
    returns. *)
Lemma select_total (polyfit : fit) (weights energies : list Q) :
  length weights = length energies ->
  weights <> [] ->
  exists w e, select_optimum polyfit weights energies = Value (w, e).
Proof.
  intros H Hne.
  destruct energies as [|e0 es] eqn:Ees.
  { destruct weights; [contradiction | discriminate]. }
  rewrite <- Ees in *.
  assert (Ha : exists i, argmin energies = Value i)
    by (rewrite Ees; eexists; reflexivity).
  destruct Ha as [i Ha].
  destruct (Nat.eq_dec i 0) as [E0 | N0];
    [|destruct (Nat.eq_dec i (length weights - 1)) as [El | Nl]].
  - destruct (select_boundary polyfit weights energies i H Ha (or_introl E0))
      as (w & e & _ & _ & S).
    exists (Finite w), (Finite e). exact S.
  - destruct (select_boundary polyfit weights energies i H Ha (or_intror El))
      as (w & e & _ & _ & S).
    exists (Finite w), (Finite e). exact S.
  - destruct (select_interior polyfit weights energies i H Ha N0 Nl)
      as (x1 & x2 & x3 & y1 & y2 & y3 & a & b & c & _ & _ & _ & V & Z).
    destruct (Qeq_dec a 0) as [Ez | Enz].
    + exists NonFinite, NonFinite. exact (Z Ez).
    + destruct (V Enz) as (w & e & S & _). exists (Finite w), (Finite e). exact S.
Qed.

Lemma energy_vs_weight_value (polyfit : fit) (p : params) (depth : Q)
      (wl : list Q) :
  y_limits p <> [] ->
  ~ wetsuit_density p == 0 ->
  (forall k, In k lung_conditions ->
             exists v, getitem (lung_volumes p) k = Value v) ->
  0 <= depth ->
  wl <> [] ->
  exists r,
    energy_vs_weight polyfit p depth (Some wl) = Value r
    /\ Forall2 (fun lc cr =>
                  fst cr = lc
                  /\ weights (snd cr) = wl
                  /\ length (energies (snd cr)) = length wl
                  /\ (forall e, In e (energies (snd cr)) -> 0 <= e))
               lung_conditions r.
Proof.
  intros Hy Hw Hk Hd Hne. unfold energy_vs_weight.
  apply mapM_total_rel. intros lc Hlc.
  destruct (Hk lc Hlc) as [lv Elv].
  destruct (mapM_total_rel
              (fun weight => snd (energy_use (set_lead_weight p weight) depth lc))
              (fun _ e => 0 <= e) wl) as (es & Ees & Fes).
  { intros w _.
    exact (energy_use_value (set_lead_weight p w) depth lc lv Hy Hw Hk Elv Hd). }
  rewrite Ees. cbn [bind].
  assert (Hlen : length wl = length es) by (exact (Forall2_length Fes)).
  destruct (select_total polyfit wl es Hlen Hne) as (w & e & S).
  rewrite S. cbn [bind]. eexists. split; [reflexivity|].
  cbn [fst snd weights energies].
  repeat split; try (symmetry; exact Hlen).
  intros e' H. clear - Fes H. induction Fes as [|a b l r Hb _ IH]; [contradiction|].
  destruct H as [<- | H]; [exact Hb | exact (IH H)].
Qed.

(** On a record the profile accepts, at a target depth that is not negative
    and for a non-empty list of candidate weights, the optimizer returns,
    whatever the fit returns, one result per lung condition, in order: the
    candidates and as many energies, none of them negative. *)
Theorem energy_vs_weight_succeeds (polyfit : fit) (p : params) (depth : Q)
        (wl : list Q) :
  y_limits p <> [] ->
  ~ wetsuit_density p == 0 ->
  (forall k, In k lung_conditions ->
             exists v, getitem (lung_volumes p) k = Value v) ->
  0 <= depth ->
  wl <> [] ->
  exists r,
    energy_vs_weight polyfit p depth (Some wl) = Value r
    /\ Forall2 (fun lc cr =>
                  fst cr = lc
                  /\ weights (snd cr) = wl
                  /\ length (energies (snd cr)) = length wl
                  /\ (forall e, In e (energies (snd cr)) -> 0 <= e))
               lung_conditions r.
Proof. exact (energy_vs_weight_value polyfit p depth wl). Qed.

Lemma energy_vs_weight_succeeds_witness :
  exists r,
    energy_vs_weight Spec.exact_fit example_params 10 (Some [0; 1]) = Value r
    /\ Forall2 (fun lc cr =>
                  fst cr = lc
                  /\ weights (snd cr) = [0; 1]
                  /\ length (energies (snd cr)) = length [0; 1]
                  /\ (forall e, In e (energies (snd cr)) -> 0 <= e))
               lung_conditions r.
Proof.
  apply (energy_vs_weight_succeeds Spec.exact_fit example_params 10 [0; 1]).
  - discriminate.
  - vm_compute. discriminate.
  - intros k [<- | [<- | [<- | []]]]; eexists; reflexivity.
  - vm_compute. discriminate.
  - discriminate.
Defined.

Lemma default_weights_nonempty : arange 0 12 0.2 <> [].
Proof.
  intro E. apply (f_equal (@length Q)) in E. vm_compute in E. discriminate.
Qed.

Lemma energy_vs_weight_default (polyfit : fit) (p : params) (depth : Q) :
  y_limits p <> [] ->
  ~ wetsuit_density p == 0 ->
  (forall k, In k lung_conditions ->
             exists v, getitem (lung_volumes p) k = Value v) ->
  0 <= depth ->
  exists r,
    energy_vs_weight polyfit p depth None = Value r
    /\ map fst r = lung_conditions.
Proof.
  intros Hy Hw Hk Hd.
  change (energy_vs_weight polyfit p depth None)
    with (energy_vs_weight polyfit p depth (Some (arange 0 12 0.2))).
  destruct (energy_vs_weight_value polyfit p depth (arange 0 12 0.2) Hy Hw Hk Hd
              default_weights_nonempty)
    as (r & E & F).
  exists r. split; [exact E|].
  clear E Hk. induction F as [|lc cr ks r [Hf _] _ IH]; [reflexivity|].
  cbn. rewrite Hf, IH. reflexivity.
Qed.

Lemma getitem_present {A : Type} (d : list (string * A)) (k : string) :
  In k (map fst d) -> exists v, getitem d k = Value v.
Proof.
  induction d as [|[k' v] d IH]; cbn; [contradiction|]. intro H.
  destruct (String.eqb k' k) eqn:E; [exists v; reflexivity|].
  destruct H as [-> | H]; [rewrite String.eqb_refl in E; discriminate | exact (IH H)].
Qed.

Lemma driver_value (polyfit : fit) (p : params) (max_depth : Q) :
  y_limits p <> [] ->
  ~ wetsuit_density p == 0 ->
  (forall k, In k lung_conditions ->
             exists v, getitem (lung_volumes p) k = Value v) ->
  exists r,
    optimal_weight_vs_depth polyfit p max_depth = Value r
    /\ map fst r = lung_conditions
    /\ Forall (fun cw => length (snd cw) = length (sweep_depths max_depth)) r.
Proof.
  intros Hy Hw Hk.
  assert (S : exists r, optimal_weight_vs_depth polyfit p max_depth = Value r).
  { unfold optimal_weight_vs_depth. cbv zeta.
    destruct (mapM_total (getitem (lung_volumes p)) lung_conditions Hk) as [vs Evs].
    rewrite Evs. cbn [bind].
    destruct (mapM_total_rel
                (fun depth => energy_vs_weight polyfit p depth None)
                (fun _ results => map fst results = lung_conditions)
                (sweep_depths max_depth)) as (per_depth & Epd & Fpd).
    { intros d Hd.
      exact (energy_vs_weight_default polyfit p d Hy Hw Hk
               (sweep_depths_nonneg max_depth d Hd)). }
    rewrite Epd. cbn [bind].
    apply mapM_total. intros lc Hlc.
    match goal with
    | |- context [mapM ?f per_depth] =>
        destruct (mapM_total f per_depth) as [ws Ews]
    end.
    - intros results Hr.
      assert (Keys : map fst results = lung_conditions).
      { clear - Fpd Hr. induction Fpd as [|a b l r Hb _ IH]; [contradiction|].
        destruct Hr as [<- | Hr]; [exact Hb | exact (IH Hr)]. }
      destruct (getitem_present results lc) as [x Ex];
        [rewrite Keys; exact Hlc|].
      rewrite Ex. cbn [bind]. eexists. reflexivity.
    - rewrite Ews. cbn [bind]. eexists. reflexivity. }
  destruct S as [r E]. exists r. split; [exact E|].
  exact (optimal_weights_length polyfit p max_depth r E).
Qed.

(** The driver never fails on a record the profile accepts, whatever the
    maximum depth and whatever the fit returns: it returns one sequence of
    optimal weights per lung condition, in order, each as long as the
    sweep. *)
Theorem depth_sweep_succeeds (polyfit : fit) (p : params) (max_depth : Q) :
  y_limits p <> [] ->
  ~ wetsuit_density p == 0 ->
  (forall k, In k lung_conditions ->
             exists v, getitem (lung_volumes p) k = Value v) ->
  exists r,
    optimal_weight_vs_depth polyfit p max_depth = Value r
    /\ map fst r = lung_conditions
    /\ Forall (fun cw => length (snd cw) = length (sweep_depths max_depth)) r.
Proof. exact (driver_value polyfit p max_depth). Qed.

Lemma depth_sweep_succeeds_witness :
  exists r,
    optimal_weight_vs_depth Spec.exact_fit example_params 50 = Value r
    /\ map fst r = lung_conditions
    /\ Forall (fun cw => length (snd cw) = length (sweep_depths 50)) r.
Proof.
  apply (depth_sweep_succeeds Spec.exact_fit example_params 50).
  - discriminate.
  - vm_compute. discriminate.
  - intros k [<- | [<- | [<- | []]]]; eexists; reflexivity.
Defined.

(** ** Force Model: depth *)

Lemma net_force_plain (p : params) (rho lv d : Q) :
  Spec.net_force p rho lv d
  == Spec.displaced_volume p lv d * rho
     - (mass p + wetsuit_mass p + lead_weight p).
Proof.
  unfold Spec.net_force, Spec.buoyant_force, Spec.weight_force. field.
Qed.

Lemma div_antitone (n a b : Q) :
  0 <= n -> 0 < a -> a <= b -> n / b <= n / a.
Proof.
  intros Hn Ha Hab.
  assert (E : n / a - n / b == n * (b - a) * / (a * b)) by (field; split; lra).
  assert (0 <= n * (b - a)) by (apply Qmult_le_0_compat; lra).
  assert (0 < a * b) by (apply Qmult_lt_0_compat; lra).
  assert (0 <= / (a * b)) by (apply Qinv_le_0_compat; lra).
  assert (0 <= n * (b - a) * / (a * b)) by (apply Qmult_le_0_compat; assumption).
  lra.
Qed.

(** The displaced volume shrinks with depth. *)
Lemma displaced_volume_antitone (p : params) (lv d1 d2 : Q) :
  0 <= d1 -> d1 <= d2 ->
  0 <= mass p -> 0 <= body_fat_percentage p -> body_fat_percentage p <= 1 ->
  residual_volume p <= lv * 1000 ->
  0 <= wetsuit_mass p -> 0 < wetsuit_density p ->
  0 <= wetsuit_compressibility_factor p ->
  Spec.displaced_volume p lv d2 <= Spec.displaced_volume p lv d1.
Proof.
  intros H1 H12 Hm Hf0 Hf1 Hrv Hwm Hwd Hcf.
  assert (A10 : forall d, 1 + d / 10 == 1 + d * (1 # 10)) by (intro; field).
  assert (A1k : forall d, 1 + d * 0.1 / 100 == 1 + d * (1 # 1000)) by (intro; field).
  assert (A2k : forall d, 1 + d * 0.05 / 100 == 1 + d * (1 # 2000)) by (intro; field).
  assert (Lung : Spec.lung_volume_at_depth (lv * 1000) (residual_volume p) d2
                 <= Spec.lung_volume_at_depth (lv * 1000) (residual_volume p) d1).
  { unfold Spec.lung_volume_at_depth.
    apply Qplus_le_r. apply div_antitone; [lra | rewrite A10; lra |].
    rewrite !A10. lra. }
  assert (Fat : Spec.fat_volume (mass p) (body_fat_percentage p) d2
                <= Spec.fat_volume (mass p) (body_fat_percentage p) d1).
  { unfold Spec.fat_volume. apply div_antitone.
    - assert (E : mass p * body_fat_percentage p * 1000 / 0.9
                  == mass p * body_fat_percentage p * (10000 # 9)) by field.
      rewrite E.
      assert (0 <= mass p * body_fat_percentage p)
        by (apply Qmult_le_0_compat; assumption).
      apply Qmult_le_0_compat; [assumption | discriminate].
    - rewrite A1k. lra.
    - rewrite !A1k. lra. }
  assert (Lean : Spec.lean_volume (mass p) (body_fat_percentage p) d2
                 <= Spec.lean_volume (mass p) (body_fat_percentage p) d1).
  { unfold Spec.lean_volume. apply div_antitone.
    - assert (E : mass p * (1 - body_fat_percentage p) * 1000 / 1.1
                  == mass p * (1 - body_fat_percentage p) * (10000 # 11)) by field.
      rewrite E.
      assert (0 <= mass p * (1 - body_fat_percentage p))
        by (apply Qmult_le_0_compat; lra).
      apply Qmult_le_0_compat; [assumption | discriminate].
    - rewrite A2k. lra.
    - rewrite !A2k. lra. }
  assert (Suit : Spec.wetsuit_volume (wetsuit_mass p) (wetsuit_density p)
                   (wetsuit_compressibility_factor p) d2
                 <= Spec.wetsuit_volume (wetsuit_mass p) (wetsuit_density p)
                      (wetsuit_compressibility_factor p) d1).
  { unfold Spec.wetsuit_volume.
    set (ws := wetsuit_mass p * 1000 / wetsuit_density p).
    set (c := wetsuit_compressibility_factor p / 100).
    assert (Hws : 0 <= ws).
    { unfold ws. unfold Qdiv. apply Qmult_le_0_compat; [lra|].
      apply Qinv_le_0_compat. lra. }
    assert (Hc : 0 <= c).
    { unfold c. unfold Qdiv. apply Qmult_le_0_compat; [lra | discriminate]. }
    assert (0 <= c * (d2 - d1)) by (apply Qmult_le_0_compat; lra).
    assert (0 <= ws * (c * (d2 - d1))) by (apply Qmult_le_0_compat; lra).
    lra. }
  unfold Spec.displaced_volume. lra.
Qed.

Lemma net_force_antitone (p : params) (lv d1 d2 : Q) :
  0 <= d1 -> d1 <= d2 ->
  0 <= mass p -> 0 <= body_fat_percentage p -> body_fat_percentage p <= 1 ->
  residual_volume p <= lv * 1000 ->
  0 <= wetsuit_mass p -> 0 < wetsuit_density p ->
  0 <= wetsuit_compressibility_factor p ->
  0 <= get_salinity_and_density (water_type p) (temperature p) ->
  exists f1 f2,
    net_force_kgf (fst (plot_net_force_kgf p)) lv d1 = Value f1
    /\ net_force_kgf (fst (plot_net_force_kgf p)) lv d2 = Value f2
    /\ f2 <= f1.
Proof.
  intros H1 H12 Hm Hf0 Hf1 Hrv Hwm Hwd Hcf Hrho.
  assert (Hnz : ~ wetsuit_density p == 0) by (intro E; lra).
  assert (H2 : 0 <= d2) by lra.
  destruct (net_force_submerged_loop p lv d1 H1 Hnz) as (f1 & E1 & V1).
  destruct (net_force_submerged_loop p lv d2 H2 Hnz) as (f2 & E2 & V2).
  exists f1, f2. split; [exact E1|]. split; [exact E2|].
  rewrite V1, V2, !net_force_plain.
  pose proof (displaced_volume_antitone p lv d1 d2
                H1 H12 Hm Hf0 Hf1 Hrv Hwm Hwd Hcf) as V.
  set (rho := get_salinity_and_density (water_type p) (temperature p)) in *.
  assert (0 <= (Spec.displaced_volume p lv d1 - Spec.displaced_volume p lv d2) * rho)
    by (apply Qmult_le_0_compat; lra).
  lra.
Qed.

(** The deeper, the heavier: for a physically sensible record (no negative
    mass, fat fraction within [0, 1], lungs at least at residual volume,
    wetsuit density positive, compressibility and water density not
    negative) the net force never increases with depth below the surface. *)
Theorem net_force_decreasing_in_depth (p : params) (lung_volume d1 d2 : Q) :
  0 <= d1 -> d1 <= d2 ->
  0 <= mass p -> 0 <= body_fat_percentage p -> body_fat_percentage p <= 1 ->
  residual_volume p <= lung_volume * 1000 ->
  0 <= wetsuit_mass p -> 0 < wetsuit_density p ->
  0 <= wetsuit_compressibility_factor p ->
  0 <= get_salinity_and_density (water_type p) (temperature p) ->
  exists f1 f2,
    net_force_kgf (fst (plot_net_force_kgf p)) lung_volume d1 = Value f1
    /\ net_force_kgf (fst (plot_net_force_kgf p)) lung_volume d2 = Value f2
    /\ f2 <= f1.
Proof. exact (net_force_antitone p lung_volume d1 d2). Qed.

Lemma net_force_decreasing_in_depth_witness :
  exists f1 f2,
    net_force_kgf (fst (plot_net_force_kgf example_params)) 6.5 5 = Value f1
    /\ net_force_kgf (fst (plot_net_force_kgf example_params)) 6.5 20 = Value f2
    /\ f2 <= f1.
Proof.
  apply (net_force_decreasing_in_depth example_params 6.5 5 20);
    vm_compute; first [discriminate | reflexivity].
Defined.

(** ** Boundary optima and the sweep's range *)

Lemma argmin_from_keep (l : list Q) (best : Q) (best_idx i : nat) :
  (forall x, In x l -> best <= x) ->
  argmin_from best best_idx i l = best_idx.
Proof.
  revert i. induction l as [|x l IH]; intros i H; [reflexivity|].
  cbn [argmin_from].
  replace (Qlt_bool x best) with false.
  - apply IH. intros y Hy. apply H. right. exact Hy.
  - symmetry. apply Qlt_bool_false_iff. apply H. left. reflexivity.
Qed.

Lemma select_first (polyfit : fit) (w0 e0 : Q) (ws es : list Q) :
  length ws = length es ->
  (forall e, In e es -> e0 <= e) ->
  select_optimum polyfit (w0 :: ws) (e0 :: es) = Value (Finite w0, Finite e0).
Proof.
  intros H Hmin.
  assert (Ha : argmin (e0 :: es) = Value 0%nat).
  { cbn [argmin]. rewrite argmin_from_keep by exact Hmin. reflexivity. }
  destruct (select_boundary polyfit (w0 :: ws) (e0 :: es) 0)
    as (w & e & Nw & Ne & S);
    [cbn; congruence | exact Ha | left; reflexivity |].
  cbn in Nw, Ne. injection Nw as <-. injection Ne as <-. exact S.
Qed.

Lemma select_last (polyfit : fit) (weights energies : list Q) (wl el : Q) :
  length weights = length energies ->
  nth_error weights (length weights - 1) = Some wl ->
  nth_error energies (length energies - 1) = Some el ->
  (forall j e, (j < length energies - 1)%nat ->
               nth_error energies j = Some e -> el < e) ->
  select_optimum polyfit weights energies = Value (Finite wl, Finite el).
Proof.
  intros H Nw Ne Hlast.
  destruct energies as [|e0 es] eqn:Ees; [destruct weights; discriminate|].
  rewrite <- Ees in *.
  assert (Ha : exists i, argmin energies = Value i)
    by (rewrite Ees; eexists; reflexivity).
  destruct Ha as [i Ha].
  pose proof (argmin_bound _ _ Ha) as Hi.
  destruct (argmin_first_min energies i Ha) as (v & Nv & Vle & _).
  assert (Ei : i = (length energies - 1)%nat).
  { destruct (Nat.eq_dec i (length energies - 1)) as [E | N]; [exact E|].
    assert (Hlt : (i < length energies - 1)%nat) by lia.
    pose proof (Hlast i v Hlt Nv) as L1.
    pose proof (Vle _ _ Ne) as L2. lra. }
  destruct (select_boundary polyfit weights energies i H Ha)
    as (w & e & Nw' & Ne' & S).
  { right. rewrite H. exact Ei. }
  rewrite Ei in Ne'. rewrite Ne in Ne'. injection Ne' as <-.
  rewrite Ei, <- H in Nw'. rewrite Nw in Nw'. injection Nw' as <-.
  exact S.
Qed.

(** When no candidate beats the first one (ties included), the first
    candidate is reported as it is; when the last candidate beats every
    earlier one, the last is.  Neither case is interpolated: the fit is not
    called. *)
Theorem boundary_optimum (polyfit : fit) (weights energies : list Q) :
  length weights = length energies ->
  (forall w0 e0,
      nth_error weights 0 = Some w0 -> nth_error energies 0 = Some e0 ->
      (forall e, In e energies -> e0 <= e) ->
      select_optimum polyfit weights energies = Value (Finite w0, Finite e0))
  /\ (forall wl el,
         nth_error weights (length weights - 1) = Some wl ->
         nth_error energies (length energies - 1) = Some el ->
         (forall j e, (j < length energies - 1)%nat ->
                      nth_error energies j = Some e -> el < e) ->
         select_optimum polyfit weights energies = Value (Finite wl, Finite el)).
Proof.
  intro H. split.
  - intros w0 e0 Nw Ne Hmin.
    destruct weights as [|w ws]; [discriminate|].
    destruct energies as [|e es]; [discriminate|].
    cbn in Nw, Ne. injection Nw as ->. injection Ne as ->.
    apply select_first; [now injection H|].
    intros e He. apply Hmin. right. exact He.
  - intros wl el. exact (select_last polyfit weights energies wl el H).
Qed.

Lemma boundary_optimum_witness :
  select_optimum Spec.exact_fit [0; 1; 2] [3; 3; 5] = Value (Finite 0, Finite 3)
  /\ select_optimum Spec.exact_fit [0; 1; 2] [5; 4; 3] = Value (Finite 2, Finite 3).
Proof.
  split.
  - apply (proj1 (boundary_optimum Spec.exact_fit [0; 1; 2] [3; 3; 5] eq_refl));
      [reflexivity | reflexivity |].
    intros e [<- | [<- | [<- | []]]]; vm_compute; discriminate.
  - apply (proj2 (boundary_optimum Spec.exact_fit [0; 1; 2] [5; 4; 3] eq_refl));
      [reflexivity | reflexivity |].
    intros j e Hj Ne.
    destruct j as [|j]; [cbn in Ne; injection Ne as <-; reflexivity|].
    destruct j as [|j]; [cbn in Ne; injection Ne as <-; reflexivity|].
    cbn in Hj. lia.
Defined.

Lemma sweep_depths_bounds (max_depth d : Q) :
  In d (sweep_depths max_depth) -> 1 <= d /\ d < max_depth + 1.
Proof.
  intro H. destruct (In_nth_error _ _ H) as [i Hi].
  assert (Hlen : (i < length (sweep_depths max_depth))%nat)
    by (apply nth_error_Some; congruence).
  apply arange_nth in Hi. subst d.
  unfold sweep_depths, arange in Hlen. rewrite length_map, length_seq in Hlen.
  set (x := (max_depth + 1 - 1) / 0.5) in *.
  assert (Hi0 : 0 <= inject_Z (Z.of_nat i)).
  { change 0 with (inject_Z 0). rewrite <- Zle_Qle. lia. }
  assert (Hix : inject_Z (Z.of_nat i) < x).
  { apply Qle_lt_trans with (inject_Z (Qceiling x - 1)); [|apply Qceiling_lt].
    rewrite <- Zle_Qle. lia. }
  assert (Ex : x == 2 * max_depth) by (unfold x; field).
  assert (0 <= inject_Z (Z.of_nat i) * 0.5) by (apply Qmult_le_0_compat; lra).
  split; lra.
Qed.

(** Every depth the driver sweeps lies in [1, max_depth + 1): the sweep is
    empty for a maximum depth of zero or less, in which case the driver
    returns empty sequences. *)
Theorem sweep_depths_range (max_depth : Q) :
  (forall d, In d (sweep_depths max_depth) -> 1 <= d /\ d < max_depth + 1)
  /\ (max_depth <= 0 -> sweep_depths max_depth = []).
Proof.
  split; [intro d; apply sweep_depths_bounds|].
  intro H. destruct (sweep_depths max_depth) as [|d l] eqn:E; [reflexivity|].
  destruct (sweep_depths_bounds max_depth d) as [L U];
    [rewrite E; left; reflexivity | lra].
Qed.

Lemma sweep_depths_range_witness :
  sweep_depths (-3) = []
  /\ (In 1 (sweep_depths 2) -> 1 <= 1 /\ 1 < 2 + 1).
Proof.
  split.
  - apply (proj2 (sweep_depths_range (-3))). vm_compute. discriminate.
  - apply (proj1 (sweep_depths_range 2) 1).
Defined.
